(** * translate.py: bracketing, verification and template reconstruction

    A shallow embedding of [src/translate.py].  Python strings are lists of
    characters (code points below 256, as [ascii]); the only character
    classes the program depends on are the bracket marker and Python's
    whitespace.  Exceptions are values of [exn] carried by [result]; the
    two output files and the warning log are fields of an explicit state.
    Console output ([print], the progress bar) is left out. *)

From Stdlib Require Import Ascii String.
From Stdlib Require Import List Sorted ZArith Lia Bool Arith DecimalString.
Import ListNotations.

(** ** Python strings *)

Definition str := list ascii.

Definition lit (s : string) : str := list_ascii_of_string s.

Definition str_eqb (a b : str) : bool :=
  if list_eq_dec ascii_dec a b then true else false.

(** [str.isspace] on code points below 256: TAB..CR, FS..US, space, NEL and
    the no-break space. *)
Definition is_space (c : ascii) : bool :=
  let n := nat_of_ascii c in
  ((9 <=? n) && (n <=? 13)) || ((28 <=? n) && (n <=? 32))
  || (n =? 133) || (n =? 160).

(** [s.count(c)] for a one-character [c]. *)
Fixpoint count (s : str) (c : ascii) : nat :=
  match s with
  | [] => 0
  | x :: s' => (if Ascii.eqb x c then 1 else 0) + count s' c
  end.

(** [s.startswith(p)]. *)
Fixpoint prefix (p s : str) : bool :=
  match p, s with
  | [], _ => true
  | _ :: _, [] => false
  | a :: p', b :: s' => Ascii.eqb a b && prefix p' s'
  end.

(** [s.find(sub)]: the least index at which [sub] occurs. *)
Fixpoint find (sub s : str) : option nat :=
  if prefix sub s then Some 0
  else match s with
       | [] => None
       | _ :: s' => option_map S (find sub s')
       end.

(** [sub in s]. *)
Definition contains (sub s : str) : bool :=
  match find sub s with Some _ => true | None => false end.

(** [s.replace(old, new, 1)]: the leftmost occurrence only. *)
Fixpoint replace1 (old new s : str) : str :=
  if prefix old s then new ++ skipn (length old) s
  else match s with
       | [] => []
       | c :: s' => c :: replace1 old new s'
       end.

(** [l[i:j]] for non-negative [i] and [j], on strings and lists. *)
Definition slice {A} (i j : nat) (l : list A) : list A :=
  firstn (j - i) (skipn i l).

Fixpoint lstrip (s : str) : str :=
  match s with
  | [] => []
  | c :: s' => if is_space c then lstrip s' else s
  end.

Definition rstrip (s : str) : str := rev (lstrip (rev s)).

(** [s.strip()]. *)
Definition strip (s : str) : str := rstrip (lstrip s).

(** [s.split()]: maximal runs of non-whitespace; [cur] is the run being
    read, reversed. *)
Fixpoint split_from (cur : str) (s : str) : list str :=
  match s with
  | [] => match cur with [] => [] | _ => [rev cur] end
  | c :: s' =>
      if is_space c
      then match cur with
           | [] => split_from [] s'
           | _ => rev cur :: split_from [] s'
           end
      else split_from (c :: cur) s'
  end.

Definition split (s : str) : list str := split_from [] s.

(** [sep.join(l)]. *)
Fixpoint join (sep : str) (l : list str) : str :=
  match l with
  | [] => []
  | [x] => x
  | x :: l' => x ++ sep ++ join sep l'
  end.

(** [l.count(x)] on a list of strings. *)
Definition count_tokens (l : list str) (x : str) : nat :=
  length (filter (str_eqb x) l).

(** ** Exceptions *)

Inductive exn := AssertionError | IndexError | ValueError.

Inductive result (A : Type) :=
| Ok (a : A)
| Raise (e : exn).
Arguments Ok {A} a.
Arguments Raise {A} e.

Definition bind {A B} (r : result A) (k : A -> result B) : result B :=
  match r with
  | Ok a => k a
  | Raise e => Raise e
  end.

Notation "x <- r ;; k" := (bind r (fun x => k))
  (at level 61, r at next level, right associativity).
Notation "' p <- r ;; k" := (bind r (fun p => k))
  (at level 61, p pattern, r at next level, right associativity).

(** [assert b]. *)
Definition assert (b : bool) : result unit :=
  if b then Ok tt else Raise AssertionError.

(** [l[i]] for a non-negative [i]. *)
Definition getitem {A} (l : list A) (i : nat) : result A :=
  match nth_error l i with
  | Some a => Ok a
  | None => Raise IndexError
  end.

(** [l[i]] for any integer [i]: negative indexes count from the end. *)
Definition getitem_Z {A} (l : list A) (i : Z) : result A :=
  if (i <? 0)%Z
  then if (i + Z.of_nat (length l) <? 0)%Z then Raise IndexError
       else getitem l (Z.to_nat (i + Z.of_nat (length l)))
  else getitem l (Z.to_nat i).

(** [range(n)]. *)
Definition range (n : nat) : list Z := map Z.of_nat (seq 0 n).

(** [s.index(c)] for a one-character [c]. *)
Definition index (s : str) (c : ascii) : result nat :=
  match find [c] s with
  | Some n => Ok n
  | None => Raise ValueError
  end.

(** [[f(x) for x in l]] with a fallible [f]: the first exception stops the
    comprehension. *)
Fixpoint mapM {A B} (f : A -> result B) (l : list A) : result (list B) :=
  match l with
  | [] => Ok []
  | x :: l' => y <- f x ;; ys <- mapM f l' ;; Ok (y :: ys)
  end.

(** ** Constants *)

Definition START_BRACKET : ascii := Eval cbv in ascii_of_nat 34.
Definition END_BRACKET : ascii := Eval cbv in ascii_of_nat 34.
Definition TEMPLATE_TOKEN : str := Eval cbv in lit "<#TEMPLATE#>".
Definition TARGET_LANGUAGE : str := Eval cbv in lit "fr".

(** ** Data model *)

Module TagCategory.
Inductive t :=
| Empty | Facility | OtherLOC | HumanSettlement | Station
| VisualWork | MusicalWork | WrittenWork | ArtWork | Software | OtherCW
| MusicalGRP | PublicCorp | PrivateCorp | OtherCorp
| AerospaceManufacturer | SportsGRP | CarManufacturer | TechCorp | ORG
| Scientist | Artist | Athlete | Politician | Cleric | SportsManager
| OtherPER
| Clothing | Vehicle | Food | Drink | OtherPROD
| MedicationVaccine | MedicalProcedure | AnatomicalStructure | Symptom
| Disease.

Definition value (c : t) : str :=
  match c with
  | Empty => []
  | Facility => lit "Facility"
  | OtherLOC => lit "OtherLOC"
  | HumanSettlement => lit "HumanSettlement"
  | Station => lit "Station"
  | VisualWork => lit "VisualWork"
  | MusicalWork => lit "MusicalWork"
  | WrittenWork => lit "WrittenWork"
  | ArtWork => lit "ArtWork"
  | Software => lit "Software"
  | OtherCW => lit "OtherCW"
  | MusicalGRP => lit "MusicalGRP"
  | PublicCorp => lit "PublicCorp"
  | PrivateCorp => lit "PrivateCorp"
  | OtherCorp => lit "OtherCorp"
  | AerospaceManufacturer => lit "AerospaceManufacturer"
  | SportsGRP => lit "SportsGRP"
  | CarManufacturer => lit "CarManufacturer"
  | TechCorp => lit "TechCorp"
  | ORG => lit "ORG"
  | Scientist => lit "Scientist"
  | Artist => lit "Artist"
  | Athlete => lit "Athlete"
  | Politician => lit "Politician"
  | Cleric => lit "Cleric"
  | SportsManager => lit "SportsManager"
  | OtherPER => lit "OtherPER"
  | Clothing => lit "Clothing"
  | Vehicle => lit "Vehicle"
  | Food => lit "Food"
  | Drink => lit "Drink"
  | OtherPROD => lit "OtherPROD"
  | MedicationVaccine => lit "Medication/Vaccine"
  | MedicalProcedure => lit "MedicalProcedure"
  | AnatomicalStructure => lit "AnatomicalStructure"
  | Symptom => lit "Symptom"
  | Disease => lit "Disease"
  end.
Definition all : list t :=
  [Empty; Facility; OtherLOC; HumanSettlement; Station; VisualWork;
   MusicalWork; WrittenWork; ArtWork; Software; OtherCW; MusicalGRP;
   PublicCorp; PrivateCorp; OtherCorp; AerospaceManufacturer; SportsGRP;
   CarManufacturer; TechCorp; ORG; Scientist; Artist; Athlete; Politician;
   Cleric; SportsManager; OtherPER; Clothing; Vehicle; Food; Drink;
   OtherPROD; MedicationVaccine; MedicalProcedure; AnatomicalStructure;
   Symptom; Disease].

(** [TagCategory(v)]: lookup by value; [None] and unknown values raise
    [ValueError]. *)
Definition of_value (v : option str) : result t :=
  match v with
  | None => Raise ValueError
  | Some v =>
      match List.find (fun c => str_eqb (value c) v) all with
      | Some c => Ok c
      | None => Raise ValueError
      end
  end.
End TagCategory.

Module TagType.
Inductive t := B | I | O.

Definition value (ty : t) : str :=
  match ty with
  | B => lit "B"
  | I => lit "I"
  | O => lit "O"
  end.

Definition eqb (a b : t) : bool :=
  match a, b with
  | B, B | I, I | O, O => true
  | _, _ => false
  end.
Definition all : list t := [B; I; O].

(** [TagType(v)]: lookup by value. *)
Definition of_value (v : str) : result t :=
  match List.find (fun ty => str_eqb (value ty) v) all with
  | Some ty => Ok ty
  | None => Raise ValueError
  end.
End TagType.

Module Domain.
Inductive t := BN | DE | EN | ES | FA | FR | HI | IT | PT | SV | UK | ZH.

Definition value (d : t) : str :=
  match d with
  | BN => lit "bn" | DE => lit "de" | EN => lit "en" | ES => lit "es"
  | FA => lit "fa" | FR => lit "fr" | HI => lit "hi" | IT => lit "it"
  | PT => lit "pt" | SV => lit "sv" | UK => lit "uk" | ZH => lit "zh"
  end.

Definition all : list t := [BN; DE; EN; ES; FA; FR; HI; IT; PT; SV; UK; ZH].

(** [Domain(code)]: lookup by value, [ValueError] when there is none. *)
Definition of_value (code : str) : result t :=
  match List.find (fun d => str_eqb (value d) code) all with
  | Some d => Ok d
  | None => Raise ValueError
  end.
End Domain.

Record Tag := mkTag { tag_type : TagType.t; tag_category : TagCategory.t }.

(** [Tag.tag_format]. *)
Definition tag_format (tg : Tag) : str :=
  TagType.value (tag_type tg)
  ++ (if negb (TagType.eqb (tag_type tg) TagType.O)
      then lit "-" ++ TagCategory.value (tag_category tg)
      else []).

Record Word := mkWord { token : str; tag : Tag }.

Record Sentence := mkSentence {
  id_value : option str;
  domain : option Domain.t;
  words : list Word;
  entity_indexes : list nat
}.

(** [Sentence()]. *)
Definition empty_sentence : Sentence := mkSentence None None [] [].

(** [enumerate(l)]. *)
Definition enumerate {A} (l : list A) : list (nat * A) :=
  combine (seq 0 (length l)) l.

Definition add_word (s : Sentence) (word : Word) : Sentence :=
  let words' := words s ++ [word] in
  mkSentence (id_value s) (domain s) words'
    (if TagType.eqb (tag_type (tag word)) TagType.B
     then entity_indexes s ++ [length words' - 1]
     else entity_indexes s).

(** ** Bracket helpers *)

Definition check_brackets (s : str) : bool :=
  if Ascii.eqb START_BRACKET END_BRACKET
  then count s START_BRACKET =? 2
  else (count s START_BRACKET =? count s END_BRACKET)
       && (count s END_BRACKET =? 1).

Definition get_bracket_indexes (s : str) : result (nat * nat) :=
  _ <- assert (check_brackets s) ;;
  start_bracket_index <- index s START_BRACKET ;;
  off <- index (skipn (start_bracket_index + 1) s) END_BRACKET ;;
  Ok (start_bracket_index, start_bracket_index + 1 + off).

Definition remove_brackets (s : str) : result str :=
  _ <- assert (check_brackets s) ;;
  '(start_bracket_index, end_bracket_index) <- get_bracket_indexes s ;;
  Ok (firstn start_bracket_index s
      ++ slice (start_bracket_index + 1) end_bracket_index s
      ++ skipn (end_bracket_index + 1) s).

Definition get_bracketed_entity (s : str) : result str :=
  _ <- assert (check_brackets s) ;;
  '(start_bracket_index, end_bracket_index) <- get_bracket_indexes s ;;
  Ok (slice (start_bracket_index + 1) end_bracket_index s).

(** ** Sentence methods *)

(** One iteration of the inner loop of [get_bracketed_sentences]; the loop
    variables are [bracketed_sentence] and [bracketing]. *)
Definition bracket_step (entity_index : nat) (st : str * bool)
    (iw : nat * Word) : result (str * bool) :=
  let '(bracketed_sentence, bracketing) := st in
  let '(i, word) := iw in
  let bracketed_sentence := bracketed_sentence ++ lit " " in
  if i =? entity_index
  then Ok (bracketed_sentence ++ [START_BRACKET] ++ token word, true)
  else if bracketing
  then if negb (TagType.eqb (tag_type (tag word)) TagType.I)
       then _ <- assert (TagType.eqb (tag_type (tag word)) TagType.O
                         || TagType.eqb (tag_type (tag word)) TagType.B) ;;
            Ok (removelast bracketed_sentence
                ++ [END_BRACKET] ++ lit " " ++ token word, false)
       else Ok (bracketed_sentence ++ token word, bracketing)
  else Ok (bracketed_sentence ++ token word, bracketing).

Fixpoint bracket_loop (entity_index : nat) (st : str * bool)
    (iws : list (nat * Word)) : result (str * bool) :=
  match iws with
  | [] => Ok st
  | iw :: iws' =>
      st' <- bracket_step entity_index st iw ;;
      bracket_loop entity_index st' iws'
  end.

(** The body of the outer loop up to [strip]: the string built for one
    entity. *)
Definition build_bracketed (s : Sentence) (entity_index : nat)
    : result str :=
  '(bracketed_sentence, bracketing) <-
     bracket_loop entity_index ([], false) (enumerate (words s)) ;;
  let bracketed_sentence :=
    if bracketing then bracketed_sentence ++ [END_BRACKET]
    else bracketed_sentence in
  Ok (strip bracketed_sentence).

(** The body of the outer loop: the string is checked before it is kept. *)
Definition bracketed_sentence_for (s : Sentence) (entity_index : nat)
    : result str :=
  bracketed_sentence <- build_bracketed s entity_index ;;
  if negb (check_brackets bracketed_sentence) then Raise ValueError
  else Ok bracketed_sentence.

Definition get_bracketed_sentences (s : Sentence) : result (list str) :=
  bracketed_sentences <- mapM (bracketed_sentence_for s) (entity_indexes s) ;;
  _ <- assert (length bracketed_sentences =? length (entity_indexes s)) ;;
  Ok bracketed_sentences.

(** The loop of [get_entity], with its [break]. *)
Fixpoint get_entity_loop (entity_index : nat) (entity : str)
    (iws : list (nat * Word)) : str :=
  match iws with
  | [] => entity
  | (i, word) :: iws' =>
      if i =? entity_index
      then get_entity_loop entity_index (entity ++ token word) iws'
      else if entity_index <? i
      then if negb (TagType.eqb (tag_type (tag word)) TagType.I)
           then entity
           else get_entity_loop entity_index
                  (entity ++ lit " " ++ token word) iws'
      else get_entity_loop entity_index entity iws'
  end.

Definition get_entity (s : Sentence) (entity_indexes_index : Z)
    : result str :=
  entity_index <- getitem_Z (entity_indexes s) entity_indexes_index ;;
  Ok (get_entity_loop entity_index [] (enumerate (words s))).

Definition get_entities (s : Sentence) : result (list str) :=
  mapM (get_entity s) (range (length (entity_indexes s))).

Definition get_entity_category (s : Sentence) (entity_indexes_index : Z)
    : result TagCategory.t :=
  entity_index <- getitem_Z (entity_indexes s) entity_indexes_index ;;
  word <- getitem (words s) entity_index ;;
  Ok (tag_category (tag word)).

Definition get_entity_categories (s : Sentence)
    : result (list TagCategory.t) :=
  mapM (get_entity_category s) (range (length (entity_indexes s))).

(** ** The parser *)

(** The longest prefix of [s] whose characters satisfy [p], and the rest. *)
Fixpoint span (p : ascii -> bool) (s : str) : str * str :=
  match s with
  | [] => ([], [])
  | c :: s' =>
      if p c then let '(a, b) := span p s' in (c :: a, b) else ([], s)
  end.

(** [s] without the literal prefix [p], when it has it. *)
Definition after_prefix (p s : str) : option str :=
  if prefix p s then Some (skipn (length p) s) else None.

Definition in_range (lo hi : nat) (c : ascii) : bool :=
  (lo <=? nat_of_ascii c) && (nat_of_ascii c <=? hi).

(** The class [[a-z]]. *)
Definition is_lower (c : ascii) : bool := in_range 97 122 c.

(** The class [[a-zA-Z0-9-]]. *)
Definition is_id_char (c : ascii) : bool :=
  is_lower c || in_range 65 90 c || in_range 48 57 c
  || (nat_of_ascii c =? 45).

Definition nonempty {A} (l : list A) : bool :=
  match l with [] => false | _ => true end.

(** [re.fullmatch] of the id-line pattern
    [# id (?P<id_value>[a-zA-Z0-9-]+)\sdomain=(?P<domain>[a-z]+)]: the two
    groups.  The id is the longest run of id characters, since the
    character after it has to be whitespace. *)
Definition match_id_line (line : str) : option (str * str) :=
  match after_prefix (lit "# id ") line with
  | None => None
  | Some r =>
      let '(id, r) := span is_id_char r in
      match r with
      | c :: r' =>
          if nonempty id && is_space c
          then match after_prefix (lit "domain=") r' with
               | Some d =>
                   if nonempty d && forallb is_lower d then Some (id, d)
                   else None
               | None => None
               end
          else None
      | [] => None
      end
  end.

(** [re.fullmatch] of the word-line pattern
    [(?P<token>\S+) _ _ (?P<token_type>[BIO])(-(?P<tag>[\S]+))?]: the
    token, the tag type and the optional category.  The token is the
    longest run of non-whitespace, since a space has to follow it. *)
Definition match_word_line (line : str)
    : option (str * str * option str) :=
  let '(tk, r) := span (fun c => negb (is_space c)) line in
  if nonempty tk
  then match after_prefix (lit " _ _ ") r with
       | Some (ty :: r') =>
           if str_eqb [ty] (lit "B") || str_eqb [ty] (lit "I")
              || str_eqb [ty] (lit "O")
           then match r' with
                | [] => Some (tk, [ty], None)
                | c :: tg =>
                    if str_eqb [c] (lit "-") && nonempty tg
                       && forallb (fun c => negb (is_space c)) tg
                    then Some (tk, [ty], Some tg)
                    else None
                end
           else None
       | _ => None
       end
  else None.

(** One iteration of the reading loop (lines 311-344); the loop variables
    are [sentences] and [sentence]. *)
Definition parse_line (acc : list Sentence * Sentence) (line : str)
    : result (list Sentence * Sentence) :=
  let '(sentences, sentence) := acc in
  let line := strip line in
  if negb (nonempty line)
  then Ok (if nonempty (words sentence) then sentences ++ [sentence]
           else sentences,
           empty_sentence)
  else if prefix (lit "# id") line
  then match match_id_line line with
       | None => Raise ValueError
       | Some (id, code) =>
           _ <- assert (match id_value sentence with
                        | None => true
                        | Some _ => false
                        end) ;;
           d <- Domain.of_value code ;;
           Ok (sentences,
               mkSentence (Some id) (Some d) (words sentence)
                 (entity_indexes sentence))
       end
  else match match_word_line line with
       | None => Raise ValueError
       | Some (tk, ty, tg) =>
           tag_type <- TagType.of_value ty ;;
           tag_category <-
             (if negb (TagType.eqb tag_type TagType.O)
              then TagCategory.of_value tg
              else Ok TagCategory.Empty) ;;
           Ok (sentences,
               add_word sentence (mkWord tk (mkTag tag_type tag_category)))
       end.

Fixpoint parse_loop (acc : list Sentence * Sentence) (lines : list str)
    : result (list Sentence * Sentence) :=
  match lines with
  | [] => Ok acc
  | line :: lines' => acc' <- parse_line acc line ;; parse_loop acc' lines'
  end.

(** Lines 305-347: the sentences of the input file, given as its lines. *)
Definition parse_lines (lines : list str) : result (list Sentence) :=
  '(sentences, sentence) <- parse_loop ([], empty_sentence) lines ;;
  Ok (if nonempty (words sentence) then sentences ++ [sentence]
      else sentences).

(** ** Characters of the file format *)

Definition TAB : ascii := Eval cbv in ascii_of_nat 9.
Definition NL : ascii := Eval cbv in ascii_of_nat 10.

(** ** The reconstruction loop *)

Inductive warning :=
| BracketsNotFoundWarning
| TranslationMismatchWarning
| TemplateTokenMismatchWarning.

(** The variables that survive an iteration of the main loop: the cursor
    into [results], the count of emitted sentences, the text written so far
    to the two files and the warnings issued. *)
Record state := mkState {
  translations_index : nat;
  db_amt : nat;
  trans_file : str;
  orig_file : str;
  warnings : list warning
}.

Definition initial_state : state := mkState 0 0 [] [] [].

Definition max_amt : nat := 4.

Definition warn (w : warning) (st : state) : state :=
  mkState (translations_index st) (db_amt st) (trans_file st) (orig_file st)
    (warnings st ++ [w]).

Definition write_trans (text : str) (st : state) : state :=
  mkState (translations_index st) (db_amt st) (trans_file st ++ text)
    (orig_file st) (warnings st).

Definition write_orig (text : str) (st : state) : state :=
  mkState (translations_index st) (db_amt st) (trans_file st)
    (orig_file st ++ text) (warnings st).

Definition advance (n : nat) (st : state) : state :=
  mkState (translations_index st + n) (db_amt st) (trans_file st)
    (orig_file st) (warnings st).

Definition emitted (st : state) : state :=
  mkState (translations_index st) (db_amt st + 1) (trans_file st)
    (orig_file st) (warnings st).

(** Statements of the main loop: they read and update the state and may
    raise. *)
Definition M (A : Type) : Type := state -> result A * state.

Definition ret {A} (a : A) : M A := fun st => (Ok a, st).

Definition bindM {A B} (m : M A) (k : A -> M B) : M B :=
  fun st =>
    match m st with
    | (Ok a, st') => k a st'
    | (Raise e, st') => (Raise e, st')
    end.

Definition lift {A} (r : result A) : M A := fun st => (r, st).

Definition modify (f : state -> state) : M unit := fun st => (Ok tt, f st).

Definition get : M state := fun st => (Ok st, st).

Notation "x <~ m ;; k" := (bindM m (fun x => k))
  (at level 61, m at next level, right associativity).
Notation "' p <~ m ;; k" := (bindM m (fun p => k))
  (at level 61, p pattern, m at next level, right associativity).

(** [str(n)] for an integer. *)
Definition str_of_Z (n : Z) : str := lit (NilZero.string_of_int (Z.to_int n)).

(** [str(x)] for an optional string, as an f-string formats it. *)
Definition str_of_option (x : option str) : str :=
  match x with
  | Some s => s
  | None => lit "None"
  end.

(** The verification loop over [translations]; [Some w] is [skip = True]
    after the warning [w]. *)
Fixpoint verify_loop (main_unbracketed_translation : str)
    (translations : list str) : result (option warning) :=
  match translations with
  | [] => Ok None
  | translation :: rest =>
      if negb (check_brackets translation)
      then Ok (Some BracketsNotFoundWarning)
      else
        unbracketed_translation <- remove_brackets translation ;;
        if negb (str_eqb unbracketed_translation
                   main_unbracketed_translation)
        then Ok (Some TranslationMismatchWarning)
        else verify_loop main_unbracketed_translation rest
  end.

(** Lines 390-402: the canonical translation and the verdict of the loop. *)
Definition verify (translations : list str)
    : result (str * option warning) :=
  first <- getitem translations 0 ;;
  main_unbracketed_translation <- remove_brackets first ;;
  skip <- verify_loop main_unbracketed_translation translations ;;
  Ok (main_unbracketed_translation, skip).

(** Lines 421-429: the template. *)
Definition build_template (main_unbracketed_translation : str)
    (translated_entity_tokens : list str) : result str :=
  _ <- assert (negb (contains TEMPLATE_TOKEN main_unbracketed_translation)) ;;
  Ok (fold_left (fun template translated_entity_token =>
                   replace1 translated_entity_token TEMPLATE_TOKEN template)
        translated_entity_tokens main_unbracketed_translation).

(** The two files open for writing. *)
Inductive file_desc := TRANS_FILE | ORIG_FILE.

(** [file_desc.write(text)]. *)
Definition write (file : file_desc) (text : str) : M unit :=
  modify (match file with
          | TRANS_FILE => write_trans text
          | ORIG_FILE => write_orig text
          end).

Definition add_conll_word (file : file_desc) (word : Word) : M unit :=
  write file (token word ++ lit " _ _ " ++ tag_format (tag word) ++ [NL]).

Definition add_conll_id_line (file : file_desc) (id_value : str)
    (domain : Domain.t) : M unit :=
  write file (lit "# id " ++ id_value ++ [TAB] ++ lit "domain="
              ++ Domain.value domain ++ [NL]).

(** Lines 455-457: the words of one entity, written to one file. *)
Fixpoint add_entity_words (file : file_desc) (category : TagCategory.t)
    (token_index : nat) (tokens : list str) : M unit :=
  match tokens with
  | [] => ret tt
  | tk :: tokens' =>
      let word :=
        mkWord tk (mkTag (if token_index =? 0 then TagType.B else TagType.I)
                     category) in
      _ <~ add_conll_word file word ;;
      add_entity_words file category (S token_index) tokens'
  end.

(** Lines 445-461: the walk over [split_template]; [entity_indexes_index]
    starts at -1. *)
Fixpoint walk (entity_categories : list TagCategory.t)
    (original_entity_tokens translated_entity_tokens : list str)
    (entity_indexes_index : Z) (split_template : list str) : M Z :=
  match split_template with
  | [] => ret entity_indexes_index
  | word :: rest =>
      if str_eqb word TEMPLATE_TOKEN
      then
        let entity_indexes_index := (entity_indexes_index + 1)%Z in
        category <~ lift (getitem_Z entity_categories entity_indexes_index) ;;
        original <~
          lift (getitem_Z original_entity_tokens entity_indexes_index) ;;
        let original_entity_tokens_split := split original in
        translated <~
          lift (getitem_Z translated_entity_tokens entity_indexes_index) ;;
        let translated_entity_tokens_split := split translated in
        _ <~ add_entity_words ORIG_FILE category 0
               original_entity_tokens_split ;;
        _ <~ add_entity_words TRANS_FILE category 0
               translated_entity_tokens_split ;;
        walk entity_categories original_entity_tokens
          translated_entity_tokens entity_indexes_index rest
      else
        let word := mkWord word (mkTag TagType.O TagCategory.Empty) in
        _ <~ add_conll_word ORIG_FILE word ;;
        _ <~ add_conll_word TRANS_FILE word ;;
        walk entity_categories original_entity_tokens
          translated_entity_tokens entity_indexes_index rest
  end.

(** How an iteration of the main loop ends: it falls through or reaches
    [continue], or it reaches [break]. *)
Inductive signal := Continue | Break.

(** Line 440: the f-string [f"{sentence.id_value}-{entity_indexes_index}"]. *)
Definition example_id_of (sentence : Sentence) (entity_indexes_index : Z)
    : str :=
  str_of_option (id_value sentence) ++ lit "-" ++ str_of_Z entity_indexes_index.

(** Lines 438-467: past the last [continue], the id lines, the walk and the
    cap on emitted sentences. *)
Definition emit (sentence : Sentence)
    (entity_categories : list TagCategory.t)
    (original_entity_tokens translated_entity_tokens : list str)
    (entity_indexes_index : Z) (split_template : list str) : M signal :=
  let example_id := example_id_of sentence entity_indexes_index in
  domain <~ lift (Domain.of_value TARGET_LANGUAGE) ;;
  _ <~ add_conll_id_line TRANS_FILE example_id domain ;;
  _ <~ add_conll_id_line ORIG_FILE example_id domain ;;
  _ <~ walk entity_categories original_entity_tokens
         translated_entity_tokens entity_indexes_index split_template ;;
  _ <~ modify emitted ;;
  st <~ get ;;
  if max_amt <=? db_amt st then ret Break
  else
    _ <~ write TRANS_FILE [NL; NL] ;;
    _ <~ write ORIG_FILE [NL; NL] ;;
    ret Continue.

(** Lines 407-436: the entity data, the template and the count of its
    placeholders. *)
Definition reconstruct (sentence : Sentence) (translations : list str)
    (main_unbracketed_translation : str) : M signal :=
  let number_of_entities := length (entity_indexes sentence) in
  entity_categories <~ lift (get_entity_categories sentence) ;;
  original_entity_tokens <~ lift (get_entities sentence) ;;
  translated_entity_tokens <~
    lift (mapM get_bracketed_entity translations) ;;
  _ <~ lift (assert ((length entity_categories
                      =? length original_entity_tokens)
                     && (length original_entity_tokens
                         =? length translated_entity_tokens))) ;;
  template <~ lift (build_template main_unbracketed_translation
                      translated_entity_tokens) ;;
  let entity_indexes_index := (-1)%Z in
  let split_template := split template in
  if negb (count_tokens split_template TEMPLATE_TOKEN =? number_of_entities)
  then _ <~ modify (warn TemplateTokenMismatchWarning) ;; ret Continue
  else emit sentence entity_categories original_entity_tokens
         translated_entity_tokens entity_indexes_index split_template.

(** One iteration of the main loop (lines 378-467).  [results] holds the
    [translatedText] field of each record of the results file. *)
Definition process_sentence (results : list str) (sentence : Sentence)
    : M signal :=
  let number_of_entities := length (entity_indexes sentence) in
  st <~ get ;;
  let translations :=
    slice (translations_index st) (translations_index st + number_of_entities)
      results in
  _ <~ lift (assert (length translations =? number_of_entities)) ;;
  _ <~ modify (advance number_of_entities) ;;
  '(main_unbracketed_translation, skip) <~ lift (verify translations) ;;
  match skip with
  | Some w => _ <~ modify (warn w) ;; ret Continue
  | None => reconstruct sentence translations main_unbracketed_translation
  end.

(** The main loop over [sentences]. *)
Fixpoint run (results : list str) (sentences : list Sentence) : M unit :=
  match sentences with
  | [] => ret tt
  | sentence :: rest =>
      sig <~ process_sentence results sentence ;;
      match sig with
      | Continue => run results rest
      | Break => ret tt
      end
  end.

(** ** The script *)

(** The script with [RUN_GOOGLE_TRANSLATE = False]: the input file is
    parsed, every sentence is bracketed (line 351), and the main loop runs
    on the translations read from the results file. *)
Definition main (lines : list str) (results : list str) : M unit :=
  sentences <~ lift (parse_lines lines) ;;
  _ <~ lift (mapM get_bracketed_sentences sentences) ;;
  run results sentences.

(** ** The helpers the script does not call *)

Definition remove_bracketed_entity (s : str) : result str :=
  _ <- assert (check_brackets s) ;;
  '(start_bracket_index, end_bracket_index) <- get_bracket_indexes s ;;
  Ok (firstn start_bracket_index s ++ skipn (end_bracket_index + 1) s).






(** ** Sentences as the parser builds them *)

(** The parser starts from [Sentence()], sets [id_value] and [domain] on an
    id line and calls [add_word] on a word line. *)
Inductive built : Sentence -> Prop :=
| built_empty : built empty_sentence
| built_id s idv dom :
    built s -> built (mkSentence idv dom (words s) (entity_indexes s))
| built_add s word : built s -> built (add_word s word).

Definition is_begin (w : Word) : bool :=
  TagType.eqb (tag_type (tag w)) TagType.B.

(** The positions of the Begin-tagged words of [ws], in ascending order. *)
Definition begin_positions (ws : list Word) : list nat :=
  filter (fun i => match nth_error ws i with
                   | Some w => is_begin w
                   | None => false
                   end)
    (seq 0 (length ws)).

(** A token as the word-line pattern [\S+] allows it: not empty and free of
    whitespace. *)
Definition token_ok (t : str) : bool :=
  negb (match t with [] => true | _ => false end)
  && forallb (fun c => negb (is_space c)) t.

(** What the reading loop maintains: a sentence built by [add_word] from
    tokens of the word-line pattern. *)
Definition well_read (s : Sentence) : Prop :=
  built s /\ Forall (fun w => token_ok (token w) = true) (words s).

(** The sentence without its tags: the tokens joined by single spaces. *)
Definition plain_text (s : Sentence) : str :=
  join (lit " ") (map token (words s)).

(** ** Vocabulary of the statements *)

(** [unq s] is [s] without its bracket markers. *)
Definition unq (s : str) : str :=
  filter (fun c => negb (Ascii.eqb c START_BRACKET)) s.

(** [sub] occurs in [s] at index [n]. *)
Definition occurs_at (sub s : str) (n : nat) : Prop :=
  exists a r, s = a ++ sub ++ r /\ length a = n.

(** The tokens of [ws], each behind a space: the text the inner loop builds
    when no word is an entity start. *)
Definition spaced (ws : list Word) : str :=
  flat_map (fun w => lit " " ++ token w) ws.

(** What the inner loop appends for the words [ws], the first of which has
    index [n], and the value of [bracketing] it ends with. *)
Fixpoint bracket_text (e n : nat) (br : bool) (ws : list Word) : str * bool :=
  match ws with
  | [] => ([], br)
  | w :: ws' =>
      if n =? e
      then let '(x, b) := bracket_text e (S n) true ws' in
           (lit " " ++ START_BRACKET :: token w ++ x, b)
      else if br && negb (TagType.eqb (tag_type (tag w)) TagType.I)
      then let '(x, b) := bracket_text e (S n) false ws' in
           (END_BRACKET :: lit " " ++ token w ++ x, b)
      else let '(x, b) := bracket_text e (S n) br ws' in
           (lit " " ++ token w ++ x, b)
  end.

(** The text with the marker that closes an entity running to the end. *)
Definition closed_text (e n : nat) (br : bool) (ws : list Word) : str :=
  fst (bracket_text e n br ws)
  ++ (if snd (bracket_text e n br ws) then [END_BRACKET] else []).

Definition starts_nonspace (s : str) : Prop :=
  exists c r, s = c :: r /\ is_space c = false.

Definition ends_nonspace (s : str) : Prop :=
  exists r c, s = r ++ [c] /\ is_space c = false.

(** The two replacements for an entity text [e] that is tagged twice took
    two separate occurrences of [e] in [canonical]: [template] is
    [canonical] with both rewritten to the placeholder. *)
Definition consumes_two_occurrences (canonical e template : str) : Prop :=
  exists a b c,
    canonical = a ++ e ++ b ++ e ++ c
    /\ template = a ++ TEMPLATE_TOKEN ++ b ++ TEMPLATE_TOKEN ++ c.

(** The words of one entity span: a Begin-tagged word for the first
    sub-token, Inside-tagged words of the same category for the others. *)
Definition span_words (category : TagCategory.t) (sub_tokens : list str)
    : list Word :=
  match sub_tokens with
  | [] => []
  | t :: ts =>
      mkWord t (mkTag TagType.B category)
      :: map (fun t' => mkWord t' (mkTag TagType.I category)) ts
  end.

Definition outside_word (t : str) : Word :=
  mkWord t (mkTag TagType.O TagCategory.Empty).

(** The output sentence the specification describes for the split template
    [tokens]: a placeholder stands for the span of the next entity, any
    other token for one Outside-tagged word.  [k] counts the placeholders
    already passed, [ents] holds the entity texts of the language of this
    output. *)
Fixpoint reconstructed (cats : list TagCategory.t) (ents : list str)
    (k : nat) (tokens : list str) : list Word :=
  match tokens with
  | [] => []
  | tok :: rest =>
      if str_eqb tok TEMPLATE_TOKEN
      then span_words (nth k cats TagCategory.Empty) (split (nth k ents []))
           ++ reconstructed cats ents (S k) rest
      else outside_word tok :: reconstructed cats ents k rest
  end.

(** The line [add_conll_word] writes for a word. *)
Definition conll_word_line (word : Word) : str :=
  token word ++ lit " _ _ " ++ tag_format (tag word) ++ [NL].

(** The line [add_conll_id_line] writes. *)
Definition conll_id_line (id_value : str) (domain : Domain.t) : str :=
  lit "# id " ++ id_value ++ [TAB] ++ lit "domain=" ++ Domain.value domain
  ++ [NL].

(** The word lines of a sentence. *)
Definition serialize (ws : list Word) : str := flat_map conll_word_line ws.

Definition is_outside (w : Word) : bool :=
  TagType.eqb (tag_type (tag w)) TagType.O.

(** The text of one serialized sentence: its id line and its word lines. *)
Definition sentence_block (id : str) (d : Domain.t) (ws : list Word) : str :=
  conll_id_line id d ++ serialize ws.

(** What follows a serialized sentence: nothing once the cap on emitted
    sentences is reached, two newlines otherwise. *)
Definition separator (emitted_before : nat) : str :=
  if max_amt <=? emitted_before + 1 then [] else [NL; NL].

(** An accepted sentence with the words written for it to the
    original-language file and to the translated-language file. *)
Definition accepted : Type := Sentence * list Word * list Word.

Definition trans_block (p : accepted) : str :=
  let '(s, _, wt) := p in sentence_block (example_id_of s (-1)) Domain.FR wt.

Definition orig_block (p : accepted) : str :=
  let '(s, wo, _) := p in sentence_block (example_id_of s (-1)) Domain.FR wo.

(** The text of a file holding [blocks]: each block is followed by [sep],
    except the last one when the cap on emitted sentences ended the
    loop. *)
Definition layout (sep : str) (blocks : list str) (capped : bool) : str :=
  if capped then join sep blocks else flat_map (fun b => b ++ sep) blocks.

(** The longest prefix of Inside-tagged words. *)
Definition is_inside (w : Word) : bool :=
  TagType.eqb (tag_type (tag w)) TagType.I.

Fixpoint inside_run (ws : list Word) : list Word :=
  match ws with
  | [] => []
  | w :: ws' => if is_inside w then w :: inside_run ws' else []
  end.

(** The entity span that starts at position [e]: the word there and the
    Inside-tagged words that follow it without a gap. *)
Definition entity_span (ws : list Word) (e : nat) : list Word :=
  match skipn e ws with
  | [] => []
  | w :: after => w :: inside_run after
  end.

(** The text of the words [ws]. *)
Definition text_of (ws : list Word) : str := join (lit " ") (map token ws).

(** A tag as the parser makes it: the category is [Empty] exactly on an
    Outside tag. *)
Definition tag_wf (tg : Tag) : bool :=
  match tag_type tg, tag_category tg with
  | TagType.O, TagCategory.Empty => true
  | TagType.O, _ => false
  | _, TagCategory.Empty => false
  | _, _ => true
  end.

(** An id as the id-line pattern takes it. *)
Definition id_ok (id : str) : bool := nonempty id && forallb is_id_char id.

(** A word as the parser makes it. *)
Definition word_ok (w : Word) : bool := token_ok (token w) && tag_wf (tag w).

(** What the reading loop maintains beyond [well_read]: well-formed tags,
    and an id of id characters together with a domain, or neither. *)
Definition read_ok (s : Sentence) : Prop :=
  well_read s
  /\ Forall (fun w => word_ok w = true) (words s)
  /\ match id_value s with
     | Some id => id_ok id = true /\ domain s <> None
     | None => domain s = None
     end.

(** A serialized sentence: its id, its domain and its words. *)
Definition block : Type := str * Domain.t * list Word.

(** The lines written for a block, with the two newlines of its
    separator as two lines. *)
Definition block_lines (b : block) : list str :=
  let '(id, d, ws) := b in
  conll_id_line id d :: map conll_word_line ws ++ [[NL]; [NL]].

(** The sentence the parser builds from the lines of a block. *)
Definition block_sentence (b : block) : Sentence :=
  let '(id, d, ws) := b in
  fold_left add_word ws (mkSentence (Some id) (Some d) [] []).

Definition block_ok (b : block) : Prop :=
  let '(id, d, ws) := b in
  id_ok id = true /\ ws <> [] /\ Forall (fun w => word_ok w = true) ws.

Definition has_marker (t : str) : bool :=
  negb (count t START_BRACKET =? 0).

(** ** Worked inputs *)

Definition word_of (t : string) (ty : TagType.t) (c : TagCategory.t) : Word :=
  mkWord (lit t) (mkTag ty c).

(** The sentence [# id abc domain=en / Tongzhi B-OtherPER / founded O /
    IBM B-TechCorp]. *)
Definition example_sentence : Sentence :=
  add_word
    (add_word
       (add_word (mkSentence (Some (lit "abc")) (Some Domain.EN) [] [])
          (word_of "Tongzhi" TagType.B TagCategory.OtherPER))
       (word_of "founded" TagType.O TagCategory.Empty))
    (word_of "IBM" TagType.B TagCategory.TechCorp).

(** The lines of an input file holding that sentence. *)
Definition example_lines : list str :=
  [lit "# id abc" ++ [TAB] ++ lit "domain=en" ++ [NL];
   lit "Tongzhi _ _ B-OtherPER" ++ [NL];
   lit "founded _ _ O" ++ [NL];
   lit "IBM _ _ B-TechCorp" ++ [NL];
   [NL]].

Definition bracketed (s : string) : str :=
  [START_BRACKET] ++ lit s ++ [END_BRACKET].

(** Its two translations, each with one entity bracketed. *)
Definition example_translations : list str :=
  [bracketed "Tongzhi" ++ lit " founded IBM";
   lit "Tongzhi founded " ++ bracketed "IBM"].

(** The same with the markers of the first translation lost. *)
Definition unbracketed_translations : list str :=
  [lit "Tongzhi founded IBM"; lit "Tongzhi founded " ++ bracketed "IBM"].

(** The same with a comma fused onto the first entity. *)
Definition fused_translations : list str :=
  [bracketed "Tongzhi" ++ lit ", founded IBM";
   lit "Tongzhi, founded " ++ bracketed "IBM"].

(** The sentence [LA B-HumanSettlement / and O / LA B-HumanSettlement] and
    its two translations. *)
Definition twice_sentence : Sentence :=
  add_word
    (add_word
       (add_word empty_sentence
          (word_of "LA" TagType.B TagCategory.HumanSettlement))
       (word_of "and" TagType.O TagCategory.Empty))
    (word_of "LA" TagType.B TagCategory.HumanSettlement).

Definition twice_translations : list str :=
  [bracketed "LA" ++ lit " and LA"; lit "LA and " ++ bracketed "LA"].

(** A sentence without entity. *)
Definition plain_sentence : Sentence :=
  add_word empty_sentence (word_of "founded" TagType.O TagCategory.Empty).

(** The words written for [example_sentence] with
    [example_translations]. *)
Definition example_words : list Word :=
  [word_of "Tongzhi" TagType.B TagCategory.OtherPER;
   word_of "founded" TagType.O TagCategory.Empty;
   word_of "IBM" TagType.B TagCategory.TechCorp].

Definition example_block : str :=
  sentence_block (lit "abc--1") Domain.FR example_words.

(** The same with the markers of the second translation lost. *)
Definition later_unbracketed_translations : list str :=
  [bracketed "Tongzhi" ++ lit " founded IBM"; lit "Tongzhi founded IBM"].

(** A sentence with an entity and the marker character in a token. *)
Definition quoted_sentence : Sentence :=
  add_word
    (add_word empty_sentence (word_of "IBM" TagType.B TagCategory.TechCorp))
    (mkWord (START_BRACKET :: lit "founded")
       (mkTag TagType.O TagCategory.Empty)).

(** The block written for [example_sentence]. *)
Definition example_written : block :=
  (lit "abc--1", Domain.FR, example_words).

(** The layout the format description asks for: one blank line between
    consecutive sentences, with or without one after the last. *)
Definition single_blank_line (blocks : list str) (text : str) : Prop :=
  text = layout [NL] blocks true \/ text = layout [NL] blocks false.

(** * Properties *)

(** ** Strings *)

Lemma str_eqb_eq (a b : str) : str_eqb a b = true <-> a = b.
Proof.
  unfold str_eqb. destruct (list_eq_dec ascii_dec a b); split; congruence.
Qed.

Lemma str_eqb_refl (a : str) : str_eqb a a = true.
Proof. now apply str_eqb_eq. Qed.

Lemma str_eqb_neq (a b : str) : str_eqb a b = false <-> a <> b.
Proof.
  unfold str_eqb. destruct (list_eq_dec ascii_dec a b); split; congruence.
Qed.

Lemma count_app (a b : str) (c : ascii) :
  count (a ++ b) c = count a c + count b c.
Proof. induction a as [|x a IH]; simpl; [reflexivity | rewrite IH; lia]. Qed.

Lemma unq_app (a b : str) : unq (a ++ b) = unq a ++ unq b.
Proof. apply filter_app. Qed.

Lemma unq_id (s : str) : count s START_BRACKET = 0 -> unq s = s.
Proof.
  induction s as [|x s IH]; simpl; [reflexivity|].
  destruct (Ascii.eqb x START_BRACKET); simpl; [lia|].
  intros H. now rewrite IH.
Qed.

Lemma prefix_app (p s : str) : prefix p (p ++ s) = true.
Proof.
  induction p as [|a p IH]; simpl; [reflexivity|].
  now rewrite Ascii.eqb_refl, IH.
Qed.

Lemma prefix_spec (p s : str) :
  prefix p s = true <-> exists r, s = p ++ r.
Proof.
  split.
  - revert s. induction p as [|a p IH]; intros s H.
    + now exists s.
    + destruct s as [|b s]; simpl in H; [discriminate|].
      apply andb_true_iff in H. destruct H as [Hab H].
      apply Ascii.eqb_eq in Hab. subst b.
      destruct (IH _ H) as [r ->]. now exists r.
  - intros [r ->]. apply prefix_app.
Qed.

Lemma find_some (sub s : str) (n : nat) :
  find sub s = Some n ->
  occurs_at sub s n /\ forall m, m < n -> ~ occurs_at sub s m.
Proof.
  revert n. induction s as [|c s IH]; intros n; simpl.
  - destruct (prefix sub []) eqn:Hp; [|discriminate].
    intros [= <-]. split; [|intros m Hm; lia].
    apply prefix_spec in Hp. destruct Hp as [r Hr].
    now exists [], r.
  - destruct (prefix sub (c :: s)) eqn:Hp.
    + intros [= <-]. split; [|intros m Hm; lia].
      apply prefix_spec in Hp. destruct Hp as [r Hr].
      now exists [], r.
    + destruct (find sub s) as [k|] eqn:Hf; simpl; [|discriminate].
      intros [= <-]. destruct (IH k eq_refl) as [(a & r & Hs & Ha) Hleast].
      split.
      * exists (c :: a), r. simpl. now rewrite Hs, Ha.
      * intros m Hm (a' & r' & Hs' & Ha').
        destruct a' as [|c' a'].
        -- simpl in Hs'. assert (prefix sub (c :: s) = true)
             by (apply prefix_spec; now exists r').
           congruence.
        -- simpl in Hs', Ha'. injection Hs' as -> Hs'.
           apply (Hleast (length a')); [lia|]. now exists a', r'.
Qed.

Lemma find_none (sub s : str) :
  find sub s = None -> forall n, ~ occurs_at sub s n.
Proof.
  induction s as [|c s IH]; simpl.
  - destruct (prefix sub []) eqn:Hp; [discriminate|].
    intros _ n (a & r & Hs & _).
    assert (prefix sub [] = true); [|congruence].
    apply prefix_spec. destruct a; [now exists r | discriminate].
  - destruct (prefix sub (c :: s)) eqn:Hp; [discriminate|].
    destruct (find sub s) eqn:Hf; simpl; [discriminate|].
    intros _ n (a & r & Hs & Ha).
    destruct a as [|c' a].
    + assert (prefix sub (c :: s) = true); [|congruence].
      apply prefix_spec. now exists r.
    + simpl in Hs. injection Hs as -> Hs.
      apply (IH eq_refl (length a)). now exists a, r.
Qed.

(** The least occurrence determines [find]. *)
Lemma find_least (sub s : str) (n : nat) :
  occurs_at sub s n -> (forall m, m < n -> ~ occurs_at sub s m) ->
  find sub s = Some n.
Proof.
  intros Hocc Hleast.
  destruct (find sub s) as [k|] eqn:Hf.
  - destruct (find_some _ _ _ Hf) as [Hk Hkleast].
    destruct (Nat.lt_trichotomy k n) as [Hlt | [-> | Hgt]].
    + exfalso. now apply (Hleast k).
    + reflexivity.
    + exfalso. now apply (Hkleast n).
  - exfalso. now apply (find_none _ _ Hf n).
Qed.

(** [replace1] rewrites exactly the occurrence [find] reports. *)
Lemma replace1_find (old new s : str) :
  replace1 old new s =
  match find old s with
  | Some n => firstn n s ++ new ++ skipn (n + length old) s
  | None => s
  end.
Proof.
  induction s as [|c s IH]; simpl.
  - destruct (prefix old []); reflexivity.
  - destruct (prefix old (c :: s)); [reflexivity|].
    rewrite IH. destruct (find old s); reflexivity.
Qed.

(** ** The entity index of a sentence *)

Lemma tagtype_eqb_eq (a b : TagType.t) : TagType.eqb a b = true <-> a = b.
Proof. destruct a, b; simpl; split; congruence. Qed.

Lemma add_word_words (s : Sentence) (word : Word) :
  words (add_word s word) = words s ++ [word].
Proof. reflexivity. Qed.

Lemma add_word_entity_indexes (s : Sentence) (word : Word) :
  entity_indexes (add_word s word) =
  entity_indexes s ++ (if is_begin word then [length (words s)] else []).
Proof.
  unfold add_word, is_begin. simpl.
  destruct (TagType.eqb (tag_type (tag word)) TagType.B).
  - rewrite length_app. simpl. do 2 f_equal. lia.
  - now rewrite app_nil_r.
Qed.

Lemma begin_positions_snoc (ws : list Word) (w : Word) :
  begin_positions (ws ++ [w]) =
  begin_positions ws ++ (if is_begin w then [length ws] else []).
Proof.
  unfold begin_positions.
  rewrite length_app. simpl. rewrite seq_app, filter_app. simpl. f_equal.
  - apply filter_ext_in. intros i Hi. apply in_seq in Hi.
    rewrite nth_error_app1 by lia. reflexivity.
  - rewrite nth_error_app2 by lia. rewrite Nat.sub_diag. simpl.
    destruct (is_begin w); reflexivity.
Qed.

Lemma built_entity_indexes (s : Sentence) :
  built s -> entity_indexes s = begin_positions (words s).
Proof.
  induction 1 as [|s idv dom _ IH|s word _ IH].
  - reflexivity.
  - exact IH.
  - rewrite add_word_entity_indexes, add_word_words, begin_positions_snoc.
    now rewrite IH.
Qed.

Lemma begin_positions_In (ws : list Word) (i : nat) :
  In i (begin_positions ws) <->
  exists w, nth_error ws i = Some w /\ tag_type (tag w) = TagType.B.
Proof.
  unfold begin_positions. rewrite filter_In, in_seq. split.
  - intros [_ H]. destruct (nth_error ws i) as [w|]; [|discriminate].
    exists w. split; [reflexivity|]. now apply tagtype_eqb_eq.
  - intros (w & Hw & Hb). split.
    + assert (i < length ws) by (apply nth_error_Some; congruence). lia.
    + rewrite Hw. now apply tagtype_eqb_eq.
Qed.

Lemma seq_strongly_sorted (a n : nat) : StronglySorted lt (seq a n).
Proof.
  revert a. induction n as [|n IH]; intros a; simpl; constructor.
  - apply IH.
  - apply Forall_forall. intros x Hx. apply in_seq in Hx. lia.
Qed.

Lemma filter_strongly_sorted (f : nat -> bool) (l : list nat) :
  StronglySorted lt l -> StronglySorted lt (filter f l).
Proof.
  induction 1 as [|x l _ IH Hx]; simpl; [constructor|].
  destruct (f x); [|exact IH].
  constructor; [exact IH|].
  rewrite Forall_forall in *. intros y Hy. apply filter_In in Hy.
  now apply Hx.
Qed.

Lemma begin_positions_sorted (ws : list Word) :
  StronglySorted lt (begin_positions ws).
Proof. apply filter_strongly_sorted, seq_strongly_sorted. Qed.

Lemma begin_positions_bound (ws : list Word) :
  Forall (fun i => i < length ws) (begin_positions ws).
Proof.
  apply Forall_forall. intros i Hi. apply begin_positions_In in Hi.
  destruct Hi as (w & Hw & _). apply nth_error_Some. congruence.
Qed.

(** C8.  For every sentence built by [add_word] calls from an empty
    sentence, [entity_indexes] is exactly the ascending list of the
    positions of the Begin-tagged words, and each [add_word] keeps it so
    by appending at most the new last position, without a rescan. *)
Theorem entity_indexes_invariant (s : Sentence) :
  built s ->
  entity_indexes s = begin_positions (words s)
  /\ StronglySorted lt (entity_indexes s)
  /\ (forall i, In i (entity_indexes s) <->
        exists w, nth_error (words s) i = Some w
                  /\ tag_type (tag w) = TagType.B)
  /\ (forall word,
        entity_indexes (add_word s word) =
        entity_indexes s
        ++ (if is_begin word then [length (words s)] else [])).
Proof.
  intros Hb. pose proof (built_entity_indexes s Hb) as He.
  repeat split.
  - exact He.
  - rewrite He. apply begin_positions_sorted.
  - rewrite He. apply begin_positions_In.
  - rewrite He. apply begin_positions_In.
  - intros word. apply add_word_entity_indexes.
Qed.

(** ** Bracket pairs *)

Lemma check_brackets_count (s : str) :
  check_brackets s = true <-> count s START_BRACKET = 2.
Proof. unfold check_brackets. simpl. apply Nat.eqb_eq. Qed.

Lemma firstn_length_app {A} (a r : list A) : firstn (length a) (a ++ r) = a.
Proof. induction a as [|x a IH]; simpl; [now destruct r | now rewrite IH]. Qed.

Lemma skipn_length_app {A} (a r : list A) : skipn (length a) (a ++ r) = r.
Proof. induction a as [|x a IH]; simpl; [reflexivity | exact IH]. Qed.

Lemma count_split (s : str) (c : ascii) :
  0 < count s c -> exists a r, s = a ++ c :: r /\ count a c = 0.
Proof.
  induction s as [|x s IH]; simpl; [lia|].
  destruct (Ascii.eqb x c) eqn:Hx.
  - intros _. apply Ascii.eqb_eq in Hx. subst x. now exists [], s.
  - intros H. destruct (IH H) as (a & r & -> & Ha).
    exists (x :: a), r. simpl. now rewrite Hx.
Qed.

Lemma find_char (a r : str) (c : ascii) :
  count a c = 0 -> find [c] (a ++ c :: r) = Some (length a).
Proof.
  induction a as [|x a IH]; simpl.
  - now rewrite Ascii.eqb_refl.
  - rewrite (Ascii.eqb_sym c x). destruct (Ascii.eqb x c); simpl; [lia|].
    intros H. now rewrite (IH H).
Qed.

(** A string that passes [check_brackets] is [a "b" c] with no marker in
    [a], [b] and [c]; the helpers return the evident parts. *)
Lemma brackets_split (s : str) :
  check_brackets s = true ->
  exists a b c,
    s = a ++ START_BRACKET :: b ++ END_BRACKET :: c
    /\ count a START_BRACKET = 0 /\ count b START_BRACKET = 0
    /\ count c START_BRACKET = 0
    /\ get_bracket_indexes s = Ok (length a, length a + 1 + length b)
    /\ remove_brackets s = Ok (a ++ b ++ c)
    /\ get_bracketed_entity s = Ok b.
Proof.
  intros Hc. pose proof Hc as Hn. apply check_brackets_count in Hn.
  destruct (count_split s START_BRACKET) as (a & r & -> & Ha); [lia|].
  rewrite count_app in Hn. simpl in Hn.
  destruct (count_split r START_BRACKET) as (b & c & -> & Hb); [lia|].
  rewrite count_app in Hn. simpl in Hn.
  exists a, b, c. change END_BRACKET with START_BRACKET.
  assert (Hidx : get_bracket_indexes
                   (a ++ START_BRACKET :: b ++ START_BRACKET :: c)
                 = Ok (length a, length a + 1 + length b)).
  { unfold get_bracket_indexes. rewrite Hc. simpl.
    unfold index. rewrite (find_char a _ START_BRACKET Ha). simpl.
    replace (a ++ START_BRACKET :: b ++ START_BRACKET :: c)
      with ((a ++ [START_BRACKET]) ++ b ++ START_BRACKET :: c)
      by (now rewrite <- app_assoc).
    replace (length a + 1) with (length (a ++ [START_BRACKET]))
      by (rewrite length_app; reflexivity).
    rewrite skipn_length_app.
    rewrite (find_char b _ START_BRACKET Hb). simpl.
    rewrite length_app. reflexivity. }
  assert (Hmid : slice (length a + 1) (length a + 1 + length b)
                   (a ++ START_BRACKET :: b ++ START_BRACKET :: c) = b).
  { unfold slice.
    replace (a ++ START_BRACKET :: b ++ START_BRACKET :: c)
      with ((a ++ [START_BRACKET]) ++ b ++ START_BRACKET :: c)
      by (now rewrite <- app_assoc).
    replace (length a + 1) with (length (a ++ [START_BRACKET]))
      by (rewrite length_app; reflexivity).
    rewrite skipn_length_app.
    replace (length (a ++ [START_BRACKET]) + length b
             - length (a ++ [START_BRACKET])) with (length b) by lia.
    apply firstn_length_app. }
  repeat split; try assumption; try lia.
  - unfold remove_brackets. rewrite Hc, Hidx. simpl bind. rewrite Hmid.
    rewrite firstn_length_app.
    replace (a ++ START_BRACKET :: b ++ START_BRACKET :: c)
      with ((a ++ START_BRACKET :: b ++ [START_BRACKET]) ++ c)
      by (rewrite <- app_assoc; simpl; now rewrite <- app_assoc).
    replace (length a + 1 + length b + 1)
      with (length (a ++ START_BRACKET :: b ++ [START_BRACKET]))
      by (rewrite length_app; simpl; rewrite length_app; simpl; lia).
    now rewrite skipn_length_app.
  - unfold get_bracketed_entity. rewrite Hc, Hidx. simpl bind.
    now rewrite Hmid.
Qed.

Lemma remove_brackets_unq (s : str) :
  check_brackets s = true -> remove_brackets s = Ok (unq s).
Proof.
  intros Hc.
  destruct (brackets_split s Hc) as (a & b & c & -> & Ha & Hb & Hcn & _ & Hr & _).
  rewrite Hr. f_equal.
  rewrite unq_app. simpl. rewrite unq_app. simpl.
  now rewrite !unq_id.
Qed.

Lemma remove_brackets_raise (s : str) :
  check_brackets s = false -> remove_brackets s = Raise AssertionError.
Proof. intros Hc. unfold remove_brackets. now rewrite Hc. Qed.

(** ** Comprehensions *)

Lemma mapM_Ok {A B} (f : A -> result B) (l : list A) (l' : list B) :
  mapM f l = Ok l' <-> Forall2 (fun x y => f x = Ok y) l l'.
Proof.
  revert l'. induction l as [|x l IH]; intros l'; simpl.
  - split.
    + intros [= <-]. constructor.
    + intros H. inversion H. reflexivity.
  - split.
    + destruct (f x) as [y|e] eqn:Hx; simpl; [|discriminate].
      destruct (mapM f l) as [ys|e]; simpl; [|discriminate].
      intros [= <-]. constructor; [exact Hx | now apply IH].
    + intros H. inversion H as [|x' y l0 ys Hx Hl]; subst.
      rewrite Hx. simpl. apply IH in Hl. now rewrite Hl.
Qed.

Lemma mapM_Raise {A B} (f : A -> result B) (l : list A) (e : exn) :
  mapM f l = Raise e -> exists x, In x l /\ f x = Raise e.
Proof.
  induction l as [|x l IH]; simpl; [discriminate|].
  destruct (f x) as [y|e'] eqn:Hx; simpl.
  - destruct (mapM f l) as [ys|e'']; simpl; [discriminate|].
    intros [= <-]. destruct (IH eq_refl) as (x' & Hin & Hx').
    exists x'. now split; [right|].
  - intros [= <-]. exists x. now split; [left|].
Qed.

Lemma mapM_total {A B} (f : A -> result B) (l : list A) :
  (forall x, In x l -> exists y, f x = Ok y) -> exists l', mapM f l = Ok l'.
Proof.
  induction l as [|x l IH]; intros H; simpl.
  - now exists [].
  - destruct (H x (or_introl eq_refl)) as [y ->].
    destruct IH as [l' ->]; [intros; apply H; now right|].
    now exists (y :: l').
Qed.

Lemma Forall2_In_r {A B} (R : A -> B -> Prop) (l : list A) (l' : list B)
    (y : B) :
  Forall2 R l l' -> In y l' -> exists x, In x l /\ R x y.
Proof.
  induction 1 as [|x y' l l' Hxy _ IH]; simpl; [tauto|].
  intros [-> | Hin].
  - exists x. now split; [left|].
  - destruct (IH Hin) as (x' & Hx' & HR). exists x'. now split; [right|].
Qed.

Lemma mapM_length {A B} (f : A -> result B) (l : list A) (l' : list B) :
  mapM f l = Ok l' -> length l' = length l.
Proof.
  intros H. apply mapM_Ok in H. symmetry. exact (Forall2_length H).
Qed.

(** ** The bracketing loop *)

Lemma bracket_loop_text (e : nat) (ws : list Word) :
  forall n acc br,
    bracket_loop e (acc, br) (combine (seq n (length ws)) ws) =
    Ok (acc ++ fst (bracket_text e n br ws), snd (bracket_text e n br ws)).
Proof.
  induction ws as [|w ws IH]; intros n acc br; simpl.
  - now rewrite app_nil_r.
  - destruct (n =? e) eqn:Hn.
    + simpl. rewrite IH.
      destruct (bracket_text e (S n) true ws) as [x b]. simpl.
      now rewrite <- !app_assoc.
    + destruct br; simpl.
      * destruct (tag_type (tag w)); simpl; rewrite ?removelast_last, IH.
        -- destruct (bracket_text e (S n) false ws) as [x b]. simpl.
           now rewrite <- !app_assoc.
        -- destruct (bracket_text e (S n) true ws) as [x b]. simpl.
           now rewrite <- !app_assoc.
        -- destruct (bracket_text e (S n) false ws) as [x b]. simpl.
           now rewrite <- !app_assoc.
      * rewrite IH.
        destruct (bracket_text e (S n) false ws) as [x b]. simpl.
        now rewrite <- !app_assoc.
Qed.

(** The inner loop never raises, so [build_bracketed] always returns. *)
Lemma build_bracketed_eq (s : Sentence) (e : nat) :
  build_bracketed s e = Ok (strip (closed_text e 0 false (words s))).
Proof.
  unfold build_bracketed, enumerate, closed_text.
  rewrite bracket_loop_text. simpl.
  destruct (snd (bracket_text e 0 false (words s)));
    [reflexivity | now rewrite app_nil_r].
Qed.

Lemma unq_bracket_text (e : nat) (ws : list Word) :
  forall n br, unq (closed_text e n br ws) = unq (spaced ws).
Proof.
  unfold closed_text.
  induction ws as [|w ws IH]; intros n br; simpl.
  - now destruct br.
  - destruct (n =? e).
    + specialize (IH (S n) true).
      destruct (bracket_text e (S n) true ws) as [x b]. simpl in *.
      rewrite <- app_assoc, !unq_app. now rewrite <- IH, unq_app.
    + destruct (br && negb (TagType.eqb (tag_type (tag w)) TagType.I)).
      * specialize (IH (S n) false).
        destruct (bracket_text e (S n) false ws) as [x b]. simpl in *.
        rewrite <- app_assoc, !unq_app. now rewrite <- IH, unq_app.
      * specialize (IH (S n) br).
        destruct (bracket_text e (S n) br ws) as [x b]. simpl in *.
        rewrite <- app_assoc, !unq_app. now rewrite <- IH, unq_app.
Qed.

(** The loop adds two markers when the entity index is a position of the
    sentence, and none otherwise. *)
Lemma count_bracket_text (e : nat) (ws : list Word) :
  forall n br,
    (br = true -> e < n) ->
    count (closed_text e n br ws) START_BRACKET =
    count (spaced ws) START_BRACKET
    + (if br then 1
       else if (n <=? e) && (e <? n + length ws) then 2 else 0).
Proof.
  unfold closed_text.
  induction ws as [|w ws IH]; intros n br Hbr.
  - destruct br; simpl; [reflexivity|].
    destruct (n <=? e) eqn:H1; simpl; [|reflexivity].
    destruct (e <? n + 0) eqn:H2; [|reflexivity].
    apply Nat.leb_le in H1. apply Nat.ltb_lt in H2. lia.
  - assert (Hin : forall m b, m <= e < m + b -> (m <=? e) && (e <? m + b) = true).
    { intros m b Hm. apply andb_true_iff. split;
        [apply Nat.leb_le | apply Nat.ltb_lt]; lia. }
    assert (Hout : forall m b, e < m -> (m <=? e) && (e <? m + b) = false).
    { intros m b Hm. apply andb_false_iff. left. apply Nat.leb_gt. lia. }
    cbn [bracket_text spaced flat_map length].
    destruct (n =? e) eqn:Hn.
    + apply Nat.eqb_eq in Hn. subst n.
      assert (br = false)
        by (destruct br; [specialize (Hbr eq_refl); lia | reflexivity]).
      subst br.
      specialize (IH (S e) true ltac:(lia)).
      rewrite Hin by lia.
      destruct (bracket_text e (S e) true ws) as [x b].
      cbn [fst snd] in *. fold (spaced ws).
      rewrite <- !app_assoc, !count_app in *. simpl in *.
           rewrite ?count_app in *. lia.
    + apply Nat.eqb_neq in Hn.
      destruct br.
      * specialize (Hbr eq_refl).
        destruct (TagType.eqb (tag_type (tag w)) TagType.I);
          cbn [andb negb].
        -- specialize (IH (S n) true ltac:(lia)).
           destruct (bracket_text e (S n) true ws) as [x b].
           cbn [fst snd] in *. fold (spaced ws).
           rewrite <- !app_assoc, !count_app in *. simpl in *.
           rewrite ?count_app in *. lia.
        -- specialize (IH (S n) false ltac:(discriminate)).
           rewrite Hout in IH by lia.
           destruct (bracket_text e (S n) false ws) as [x b].
           cbn [fst snd] in *. fold (spaced ws).
           rewrite !count_app in *. simpl in *.
           rewrite !count_app in *. lia.
      * specialize (IH (S n) false ltac:(discriminate)).
        cbn [andb].
        destruct (Nat.lt_ge_cases e n) as [Hlt | Hge].
        -- rewrite Hout in IH by lia. rewrite Hout by lia.
           destruct (bracket_text e (S n) false ws) as [x b].
           cbn [fst snd] in *. fold (spaced ws).
           rewrite <- !app_assoc, !count_app in *. simpl in *.
           rewrite ?count_app in *. lia.
        -- destruct (Nat.lt_ge_cases e (S n + length ws)) as [Hlt | Hge'].
           ++ rewrite Hin in IH by lia. rewrite Hin by lia.
              destruct (bracket_text e (S n) false ws) as [x b].
              cbn [fst snd] in *. fold (spaced ws).
              rewrite <- !app_assoc, !count_app in *. simpl in *.
           rewrite ?count_app in *. lia.
           ++ assert (Hfar : forall m b, m + b <= e ->
                                         (m <=? e) && (e <? m + b) = false).
              { intros m b Hm. apply andb_false_iff. right.
                apply Nat.ltb_ge. lia. }
              rewrite Hfar in IH by lia. rewrite Hfar by (simpl; lia).
              destruct (bracket_text e (S n) false ws) as [x b].
              cbn [fst snd] in *. fold (spaced ws).
              rewrite <- !app_assoc, !count_app in *. simpl in *.
           rewrite ?count_app in *. lia.
Qed.

(** ** The effect of [strip] on the built text *)

Lemma ends_nonspace_app (a b : str) :
  ends_nonspace b -> ends_nonspace (a ++ b).
Proof.
  intros (r & c & -> & Hc). exists (a ++ r), c.
  now rewrite app_assoc.
Qed.

Lemma strip_spaced (g : str) :
  starts_nonspace g -> ends_nonspace g -> strip (lit " " ++ g) = g.
Proof.
  intros (c & r & -> & Hc) (r' & c' & Hr & Hc').
  assert (H1 : lstrip (lit " " ++ c :: r) = c :: r)
    by (simpl; now rewrite Hc).
  unfold strip. rewrite H1. unfold rstrip.
  rewrite Hr, rev_app_distr. simpl. rewrite Hc'. simpl.
  now rewrite rev_involutive.
Qed.

Lemma token_ok_starts (t : str) : token_ok t = true -> starts_nonspace t.
Proof.
  unfold token_ok. destruct t as [|c r]; simpl; [discriminate|].
  intros H. apply andb_true_iff in H. destruct H as [H _].
  exists c, r. split; [reflexivity|]. now apply negb_true_iff.
Qed.

Lemma token_ok_ends (t : str) : token_ok t = true -> ends_nonspace t.
Proof.
  unfold token_ok. intros H. apply andb_true_iff in H. destruct H as [Hne Hall].
  destruct (exists_last (l := t)) as (r & c & ->);
    [now destruct t|].
  exists r, c. split; [reflexivity|].
  rewrite forallb_app in Hall. apply andb_true_iff in Hall.
  destruct Hall as [_ Hc]. simpl in Hc. rewrite andb_true_r in Hc.
  now apply negb_true_iff.
Qed.

Lemma bracket_text_ends (e : nat) (ws : list Word) :
  Forall (fun w => token_ok (token w) = true) ws -> ws <> [] ->
  forall n br, ends_nonspace (fst (bracket_text e n br ws)).
Proof.
  induction 1 as [|w ws Hw Hws IH]; [congruence|].
  intros _ n br.
  assert (Hrest : forall m b,
             ends_nonspace (token w ++ fst (bracket_text e m b ws))).
  { intros m b. destruct ws as [|w' ws'].
    - simpl. rewrite app_nil_r. now apply token_ok_ends.
    - apply ends_nonspace_app, IH. discriminate. }
  cbn [bracket_text].
  destruct (n =? e).
  - specialize (Hrest (S n) true).
    destruct (bracket_text e (S n) true ws) as [x b]. cbn [fst] in *.
    now apply (ends_nonspace_app (lit " " ++ [START_BRACKET])).
  - destruct (br && negb (TagType.eqb (tag_type (tag w)) TagType.I)).
    + specialize (Hrest (S n) false).
      destruct (bracket_text e (S n) false ws) as [x b]. cbn [fst] in *.
      now apply (ends_nonspace_app (END_BRACKET :: lit " ")).
    + specialize (Hrest (S n) br).
      destruct (bracket_text e (S n) br ws) as [x b]. cbn [fst] in *.
      now apply (ends_nonspace_app (lit " ")).
Qed.

Lemma closed_text_ends (e : nat) (ws : list Word) (n : nat) (br : bool) :
  Forall (fun w => token_ok (token w) = true) ws -> ws <> [] ->
  ends_nonspace (closed_text e n br ws).
Proof.
  intros Hok Hne. unfold closed_text.
  destruct (snd (bracket_text e n br ws)).
  - exists (fst (bracket_text e n br ws)), END_BRACKET. now split.
  - rewrite app_nil_r. now apply bracket_text_ends.
Qed.

(** On a sentence of parsed tokens, [strip] removes the leading space the
    loop wrote and nothing else. *)
Lemma closed_text_strip (e : nat) (ws : list Word) :
  Forall (fun w => token_ok (token w) = true) ws -> ws <> [] ->
  lit " " ++ strip (closed_text e 0 false ws) = closed_text e 0 false ws.
Proof.
  intros Hok Hne.
  pose proof (closed_text_ends e ws 0 false Hok Hne) as Hend.
  assert (Hshape : exists g, closed_text e 0 false ws = lit " " ++ g
                             /\ starts_nonspace g).
  { destruct ws as [|w ws]; [congruence|].
    inversion Hok as [|? ? Hw _]; subst.
    destruct (token_ok_starts _ Hw) as (c & r & Hr & Hc).
    unfold closed_text. cbn [bracket_text].
    destruct (0 =? e).
    - destruct (bracket_text e 1 true ws) as [x b]. cbn [fst snd].
      eexists. split; [reflexivity|].
      exists START_BRACKET. eexists. split; [reflexivity | reflexivity].
    - cbn [andb].
      destruct (bracket_text e 1 false ws) as [x b]. cbn [fst snd].
      eexists. split; [reflexivity|].
      rewrite Hr. exists c. eexists. split; [reflexivity | exact Hc]. }
  destruct Hshape as (g & Hg & Hstart).
  rewrite Hg. f_equal. apply strip_spaced; [exact Hstart|].
  rewrite Hg in Hend. destruct Hend as (r & c & Hr & Hc).
  destruct Hstart as (c0 & r0 & -> & _).
  destruct r as [|x r]; [discriminate|].
  simpl in Hr. injection Hr as _ Hr. now exists r, c.
Qed.

Lemma spaced_join (w : Word) (ws : list Word) :
  spaced (w :: ws) = lit " " ++ join (lit " ") (map token (w :: ws)).
Proof.
  revert w. induction ws as [|w' ws IH]; intros w.
  - simpl. now rewrite app_nil_r.
  - change (spaced (w :: w' :: ws))
      with (lit " " ++ token w ++ spaced (w' :: ws)).
    rewrite IH. reflexivity.
Qed.

(** ** Bracketed variants *)

Lemma bracketed_sentence_for_Ok (s : Sentence) (e : nat) (v : str) :
  bracketed_sentence_for s e = Ok v <->
  build_bracketed s e = Ok v /\ check_brackets v = true.
Proof.
  unfold bracketed_sentence_for. rewrite build_bracketed_eq. simpl.
  destruct (check_brackets (strip (closed_text e 0 false (words s))))
    eqn:Hc; simpl; split.
  - intros [= <-]. now split.
  - now intros [H _].
  - discriminate.
  - intros [[= <-] H]. congruence.
Qed.

Lemma bracketed_sentence_for_Raise (s : Sentence) (e : nat) (x : exn) :
  bracketed_sentence_for s e = Raise x ->
  x = ValueError
  /\ exists v, build_bracketed s e = Ok v /\ check_brackets v = false.
Proof.
  unfold bracketed_sentence_for. rewrite build_bracketed_eq. simpl.
  destruct (check_brackets (strip (closed_text e 0 false (words s))))
    eqn:Hc; simpl; [discriminate|].
  intros [= <-]. split; [reflexivity|]. eexists. split; [reflexivity|].
  exact Hc.
Qed.

Lemma bracketed_all_checked (s : Sentence) (es : list nat) (l : list str) :
  Forall2 (fun e v => bracketed_sentence_for s e = Ok v) es l ->
  Forall2 (fun e v => build_bracketed s e = Ok v) es l
  /\ Forall (fun v => check_brackets v = true /\ count v START_BRACKET = 2) l.
Proof.
  induction 1 as [|e v es vs Hev _ IH].
  - split; constructor.
  - apply bracketed_sentence_for_Ok in Hev. destruct Hev as [Hb Hc].
    destruct IH as [IH1 IH2]. split; constructor; try assumption.
    split; [exact Hc | now apply check_brackets_count].
Qed.

(** C3.  [get_bracketed_sentences] either returns one string per entry of
    [entity_indexes], in the order of that list (which is ascending on a
    sentence built by [add_word]), each with exactly two bracket markers,
    or raises [ValueError] because a string it built fails
    [check_brackets]; it never returns a string that fails the check, and
    raises nothing else. *)
Theorem get_bracketed_sentences_postcondition (s : Sentence) :
  match get_bracketed_sentences s with
  | Ok bracketed_sentences =>
      length bracketed_sentences = length (entity_indexes s)
      /\ Forall2 (fun entity_index v => build_bracketed s entity_index = Ok v)
           (entity_indexes s) bracketed_sentences
      /\ Forall (fun v => check_brackets v = true
                          /\ count v START_BRACKET = 2)
           bracketed_sentences
      /\ (built s -> StronglySorted lt (entity_indexes s))
  | Raise e =>
      e = ValueError
      /\ exists entity_index v,
           In entity_index (entity_indexes s)
           /\ build_bracketed s entity_index = Ok v
           /\ check_brackets v = false
  end.
Proof.
  unfold get_bracketed_sentences.
  destruct (mapM (bracketed_sentence_for s) (entity_indexes s))
    as [l|e] eqn:Hm; simpl.
  - rewrite (mapM_length _ _ _ Hm), Nat.eqb_refl. simpl.
    apply mapM_Ok in Hm. split; [symmetry; exact (Forall2_length Hm)|].
    destruct (bracketed_all_checked s _ _ Hm) as [H1 H2].
    split; [exact H1|]. split; [exact H2|].
    intros Hb. rewrite (built_entity_indexes s Hb).
    apply begin_positions_sorted.
  - destruct (mapM_Raise _ _ _ Hm) as (x & Hin & Hx).
    apply bracketed_sentence_for_Raise in Hx. destruct Hx as (-> & v & Hb & Hc).
    split; [reflexivity|]. now exists x, v.
Qed.

Lemma count_space_cons (g : str) :
  count (lit " " ++ g) START_BRACKET = count g START_BRACKET.
Proof. reflexivity. Qed.

(** C4.  On a sentence as the parser builds it (tokens matching [\S+]),
    [remove_brackets] maps every string that [get_bracketed_sentences]
    returns to the plain text of the sentence, the tokens joined by single
    spaces. *)
Theorem remove_brackets_bracketed (s : Sentence) (l : list str) (v : str) :
  built s ->
  Forall (fun w => token_ok (token w) = true) (words s) ->
  get_bracketed_sentences s = Ok l ->
  In v l ->
  remove_brackets v = Ok (plain_text s).
Proof.
  intros Hb Hok Hl Hv.
  unfold get_bracketed_sentences in Hl.
  destruct (mapM (bracketed_sentence_for s) (entity_indexes s))
    as [l'|] eqn:Hm; simpl in Hl; [|discriminate].
  rewrite (mapM_length _ _ _ Hm), Nat.eqb_refl in Hl. simpl in Hl.
  injection Hl as ->. apply mapM_Ok in Hm.
  destruct (Forall2_In_r _ _ _ v Hm Hv) as (e & He & Hev).
  apply bracketed_sentence_for_Ok in Hev. destruct Hev as [Hbv Hc].
  rewrite build_bracketed_eq in Hbv. injection Hbv as Hbv.
  assert (Hlt : e < length (words s)).
  { rewrite (built_entity_indexes s Hb) in He.
    pose proof (begin_positions_bound (words s)) as Hbd.
    rewrite Forall_forall in Hbd. now apply Hbd. }
  assert (Hne : words s <> []) by (destruct (words s); simpl in *; [lia | discriminate]).
  pose proof (closed_text_strip e (words s) Hok Hne) as Hstrip.
  rewrite Hbv in Hstrip.
  pose proof (count_bracket_text e (words s) 0 false ltac:(discriminate))
    as Hcount.
  replace ((0 <=? e) && (e <? 0 + length (words s))) with true in Hcount
    by (symmetry; apply andb_true_iff; split;
        [apply Nat.leb_le | apply Nat.ltb_lt]; lia).
  rewrite <- Hstrip, count_space_cons in Hcount.
  apply check_brackets_count in Hc as Hc2.
  assert (Hnone : count (spaced (words s)) START_BRACKET = 0) by lia.
  pose proof (unq_bracket_text e (words s) 0 false) as Hunq.
  rewrite <- Hstrip, (unq_id _ Hnone) in Hunq.
  rewrite (remove_brackets_unq v Hc). f_equal.
  unfold plain_text. destruct (words s) as [|w ws]; [congruence|].
  rewrite spaced_join in Hunq. simpl in Hunq. now injection Hunq.
Qed.

(** ** The consistency verifier *)

Lemma advance_0 (st : state) : advance 0 st = st.
Proof. destruct st. unfold advance. simpl. now rewrite Nat.add_0_r. Qed.

Lemma verify_loop_checked (main : str) (ts : list str) :
  Forall (fun t => check_brackets t = true) ts ->
  verify_loop main ts =
  Ok (if forallb (fun t => str_eqb (unq t) main) ts
      then None else Some TranslationMismatchWarning).
Proof.
  induction 1 as [|t ts Ht _ IH]; simpl; [reflexivity|].
  rewrite Ht, (remove_brackets_unq t Ht). simpl.
  destruct (str_eqb (unq t) main); simpl; [exact IH | reflexivity].
Qed.

Lemma all_unbracketed_forallb (main : str) (ts : list str) :
  Forall (fun t => check_brackets t = true) ts ->
  forallb (fun t => str_eqb (unq t) main) ts = true <->
  forall t, In t ts -> remove_brackets t = Ok main.
Proof.
  intros Hc. rewrite forallb_forall. rewrite Forall_forall in Hc.
  split; intros H t Ht.
  - rewrite (remove_brackets_unq t (Hc t Ht)). f_equal.
    apply str_eqb_eq. now apply H.
  - apply str_eqb_eq. specialize (H t Ht).
    rewrite (remove_brackets_unq t (Hc t Ht)) in H. congruence.
Qed.

(** The first translation decides before the loop runs: when it fails
    [check_brackets], the assertion of [remove_brackets] ends the run. *)
Lemma first_translation_unchecked (results : list str) (sentence : Sentence)
    (st : state) (t0 : str) (ts : list str) :
  slice (translations_index st)
    (translations_index st + length (entity_indexes sentence)) results
  = t0 :: ts ->
  length (t0 :: ts) = length (entity_indexes sentence) ->
  check_brackets t0 = false ->
  process_sentence results sentence st =
  (Raise AssertionError, advance (length (entity_indexes sentence)) st).
Proof.
  intros Htr Hlen Hc.
  unfold process_sentence, bindM, get, lift, modify. rewrite Htr.
  rewrite Hlen, Nat.eqb_refl. simpl.
  unfold verify. simpl. now rewrite (remove_brackets_raise t0 Hc).
Qed.

(** C2.  When the [N >= 1] translations of a sentence all pass
    [check_brackets] and [canonical] is the first one unbracketed, the
    verifier accepts exactly when the unbracketed translations are all
    equal, that is when each equals [canonical]; otherwise the sentence is
    skipped with [TranslationMismatchWarning] and nothing is written. *)
Theorem consistency_verifier_accepts_iff (results : list str)
    (sentence : Sentence) (st : state) (translations : list str)
    (canonical : str) :
  slice (translations_index st)
    (translations_index st + length (entity_indexes sentence)) results
  = translations ->
  length translations = length (entity_indexes sentence) ->
  Forall (fun t => check_brackets t = true) translations ->
  (first <- getitem translations 0 ;; remove_brackets first) = Ok canonical ->
  let all_equal :=
    forall t t', In t translations -> In t' translations ->
                 remove_brackets t = remove_brackets t' in
  let st' :=
    warn TranslationMismatchWarning
      (advance (length (entity_indexes sentence)) st) in
  (all_equal <->
   forall t, In t translations -> remove_brackets t = Ok canonical)
  /\ (verify translations = Ok (canonical, None) <-> all_equal)
  /\ (~ all_equal ->
      verify translations = Ok (canonical, Some TranslationMismatchWarning)
      /\ process_sentence results sentence st = (Ok Continue, st')
      /\ trans_file st' = trans_file st
      /\ orig_file st' = orig_file st).
Proof.
  intros Htr Hlen Hchk Hcanon all_equal st'.
  destruct translations as [|t0 ts]; [discriminate|].
  simpl in Hcanon.
  assert (Heq : all_equal <->
                forall t, In t (t0 :: ts) -> remove_brackets t = Ok canonical).
  { split.
    - intros H t Ht. rewrite <- Hcanon. apply H; [exact Ht | now left].
    - intros H t t' Ht Ht'. now rewrite (H t Ht), (H t' Ht'). }
  assert (Hv : verify (t0 :: ts) =
               Ok (canonical,
                   if forallb (fun t => str_eqb (unq t) canonical) (t0 :: ts)
                   then None else Some TranslationMismatchWarning)).
  { unfold verify. cbn [getitem nth_error bind]. rewrite Hcanon.
    cbn [bind]. now rewrite (verify_loop_checked canonical _ Hchk). }
  pose proof (all_unbracketed_forallb canonical (t0 :: ts) Hchk) as Hall.
  split; [exact Heq|]. split.
  - rewrite Hv, Heq, <- Hall.
    destruct (forallb _ (t0 :: ts)); split; congruence.
  - intros Hne.
    assert (Hf : forallb (fun t => str_eqb (unq t) canonical) (t0 :: ts)
                 = false).
    { destruct (forallb _ (t0 :: ts)) eqn:Hf; [|reflexivity].
      exfalso. apply Hne, Heq, Hall. reflexivity. }
    rewrite Hf in Hv. split; [exact Hv|]. split; [|now split].
    unfold process_sentence, bindM, get, lift, modify. rewrite Htr.
    rewrite Hlen, Nat.eqb_refl. cbn [assert]. rewrite Hv. reflexivity.
Qed.

Lemma begin_positions_none (ws : list Word) :
  (forall w, In w ws -> tag_type (tag w) <> TagType.B) ->
  begin_positions ws = [].
Proof.
  intros H. destruct (begin_positions ws) as [|i l] eqn:Hb; [reflexivity|].
  exfalso.
  assert (Hi : In i (begin_positions ws)) by (rewrite Hb; now left).
  apply begin_positions_In in Hi. destruct Hi as (w & Hw & Hty).
  apply (H w); [|exact Hty]. eapply nth_error_In; eauto.
Qed.

(** C10.  A sentence with no Begin-tagged word has no entity, its slice of
    [results] is empty, and [translations[0]] raises [IndexError] before
    anything is checked or written; the loop ends there. *)
Theorem zero_entity_sentence_raises (results : list str)
    (sentence : Sentence) (st : state) :
  built sentence ->
  (forall w, In w (words sentence) -> tag_type (tag w) <> TagType.B) ->
  entity_indexes sentence = []
  /\ process_sentence results sentence st = (Raise IndexError, st)
  /\ forall rest, run results (sentence :: rest) st = (Raise IndexError, st).
Proof.
  intros Hb Hno.
  assert (He : entity_indexes sentence = []).
  { rewrite (built_entity_indexes _ Hb). now apply begin_positions_none. }
  assert (Hp : process_sentence results sentence st = (Raise IndexError, st)).
  { unfold process_sentence, bindM, get, lift, modify. rewrite He. simpl.
    unfold slice. rewrite Nat.add_0_r, Nat.sub_diag. simpl.
    now rewrite advance_0. }
  split; [exact He|]. split; [exact Hp|].
  intros rest. simpl. unfold bindM. now rewrite Hp.
Qed.

(** ** The template *)

Lemma occurs_at_prefix (sub s : str) (n : nat) :
  occurs_at sub s n -> prefix sub (skipn n s) = true.
Proof.
  intros (a & r & -> & <-). rewrite skipn_length_app. apply prefix_app.
Qed.

Lemma occurs_in_front (sub x y : str) (m : nat) :
  occurs_at sub (x ++ y) m -> m + length sub <= length x ->
  forall z, occurs_at sub (x ++ z) m.
Proof.
  intros (a & r & Hs & Ha) Hm z.
  rewrite app_assoc in Hs. symmetry in Hs.
  destruct (app_eq_app _ _ _ _ Hs) as (l & [[Hx Hy] | [Hx Hy]]).
  - assert (l = []).
    { apply (f_equal (@length _)) in Hx.
      rewrite !length_app in Hx. destruct l; [reflexivity | simpl in Hx; lia]. }
    subst l. rewrite app_nil_r in Hx. exists a, z. split; [|exact Ha].
    rewrite <- Hx, <- app_assoc. reflexivity.
  - exists a, (l ++ z). split; [|exact Ha].
    rewrite Hx, <- !app_assoc. reflexivity.
Qed.

Lemma occurs_behind (sub x y : str) (m : nat) :
  occurs_at sub (x ++ y) m -> length x <= m ->
  occurs_at sub y (m - length x).
Proof.
  intros (a & r & Hs & Ha) Hm. symmetry in Hs.
  destruct (app_eq_app _ _ _ _ Hs) as (l & [[Hx Hy] | [Hx Hy]]).
  - exists l, r. split; [exact Hy|].
    rewrite <- Ha, Hx, length_app. lia.
  - assert (l = []).
    { apply (f_equal (@length _)) in Hx.
      rewrite !length_app in Hx. destruct l; [reflexivity | simpl in Hx; lia]. }
    subst l. rewrite app_nil_r in Hx. simpl in Hy. subst x.
    exists [], r. split; [symmetry; exact Hy | simpl; lia].
Qed.

Lemma build_template_snoc (canonical : str) (ents : list str) (e : str) :
  build_template canonical (ents ++ [e]) =
  (template <- build_template canonical ents ;;
   Ok (replace1 e TEMPLATE_TOKEN template)).
Proof.
  unfold build_template.
  destruct (contains TEMPLATE_TOKEN canonical); simpl; [reflexivity|].
  now rewrite fold_left_app.
Qed.

Lemma replace1_first_occurrence (e new t : str) :
  match find e t with
  | Some n =>
      occurs_at e t n /\ (forall m, m < n -> ~ occurs_at e t m)
      /\ replace1 e new t = firstn n t ++ new ++ skipn (n + length e) t
  | None => (forall n, ~ occurs_at e t n) /\ replace1 e new t = t
  end.
Proof.
  rewrite replace1_find.
  destruct (find e t) as [n|] eqn:Hf.
  - destruct (find_some _ _ _ Hf) as [H1 H2]. now repeat split.
  - split; [now apply find_none | reflexivity].
Qed.

Lemma replace1_at (e new a r : str) :
  find e (a ++ e ++ r) = Some (length a) ->
  replace1 e new (a ++ e ++ r) = a ++ new ++ r.
Proof.
  intros Hf. rewrite replace1_find, Hf.
  rewrite firstn_length_app. do 2 f_equal.
  rewrite app_assoc, <- length_app. apply skipn_length_app.
Qed.

Lemma duplicate_entity_template (a e b c : str) :
  e <> [] ->
  contains TEMPLATE_TOKEN (a ++ e ++ b ++ e ++ c) = false ->
  find e (a ++ e ++ b ++ e ++ c) = Some (length a) ->
  find e (b ++ e ++ c) = Some (length b) ->
  (forall p, occurs_at e (a ++ TEMPLATE_TOKEN ++ b ++ e ++ c) p ->
             p + length e <= length a
             \/ length a + length TEMPLATE_TOKEN <= p) ->
  build_template (a ++ e ++ b ++ e ++ c) [e; e] =
  Ok (a ++ TEMPLATE_TOKEN ++ b ++ TEMPLATE_TOKEN ++ c).
Proof.
  intros Hne Hfree Hfirst Hnext Hclear.
  unfold build_template. rewrite Hfree. cbn [negb assert bind fold_left].
  rewrite (replace1_at e TEMPLATE_TOKEN a (b ++ e ++ c) Hfirst).
  destruct (find_some _ _ _ Hfirst) as [_ Hleast1].
  destruct (find_some _ _ _ Hnext) as [_ Hleast2].
  assert (Hsecond : find e (a ++ TEMPLATE_TOKEN ++ b ++ e ++ c)
                    = Some (length (a ++ TEMPLATE_TOKEN ++ b))).
  { apply find_least.
    - exists (a ++ TEMPLATE_TOKEN ++ b), c. split; [|reflexivity].
      now rewrite <- !app_assoc.
    - intros m Hm Hocc. rewrite !length_app in Hm.
      destruct (Hclear m Hocc) as [Hfront | Hback].
      + apply (Hleast1 m).
        * destruct e; [congruence | simpl in Hfront; lia].
        * now apply (occurs_in_front e a (TEMPLATE_TOKEN ++ b ++ e ++ c)).
      + apply (Hleast2 (m - length (a ++ TEMPLATE_TOKEN))).
        * rewrite length_app. lia.
        * apply occurs_behind; [now rewrite <- app_assoc|].
          rewrite length_app. lia. }
  f_equal.
  replace (a ++ TEMPLATE_TOKEN ++ b ++ e ++ c)
    with ((a ++ TEMPLATE_TOKEN ++ b) ++ e ++ c)
    by (now rewrite <- !app_assoc).
  rewrite replace1_at.
  - now rewrite <- !app_assoc.
  - rewrite <- Hsecond. now rewrite <- !app_assoc.
Qed.

(** What the replacement loop does guarantee.  The entities are taken in
    order, each step rewriting the leftmost occurrence of the entity text
    in the template as it then stands; for an entity text tagged twice,
    when no occurrence of it in the template touches the placeholder
    written by the first step, the two steps take two separate
    occurrences: the first one of the canonical translation and the next
    one after it. *)
Theorem template_replaces_first_occurrences :
  (forall canonical ents e,
      build_template canonical (ents ++ [e]) =
      (template <- build_template canonical ents ;;
       Ok (replace1 e TEMPLATE_TOKEN template)))
  /\ (forall e template,
        match find e template with
        | Some n =>
            occurs_at e template n
            /\ (forall m, m < n -> ~ occurs_at e template m)
            /\ replace1 e TEMPLATE_TOKEN template =
               firstn n template ++ TEMPLATE_TOKEN
               ++ skipn (n + length e) template
        | None =>
            (forall n, ~ occurs_at e template n)
            /\ replace1 e TEMPLATE_TOKEN template = template
        end)
  /\ (forall a e b c,
        e <> [] ->
        contains TEMPLATE_TOKEN (a ++ e ++ b ++ e ++ c) = false ->
        find e (a ++ e ++ b ++ e ++ c) = Some (length a) ->
        find e (b ++ e ++ c) = Some (length b) ->
        (forall p, occurs_at e (a ++ TEMPLATE_TOKEN ++ b ++ e ++ c) p ->
                   p + length e <= length a
                   \/ length a + length TEMPLATE_TOKEN <= p) ->
        build_template (a ++ e ++ b ++ e ++ c) [e; e] =
        Ok (a ++ TEMPLATE_TOKEN ++ b ++ TEMPLATE_TOKEN ++ c)
        /\ consumes_two_occurrences (a ++ e ++ b ++ e ++ c) e
             (a ++ TEMPLATE_TOKEN ++ b ++ TEMPLATE_TOKEN ++ c)).
Proof.
  split; [exact build_template_snoc|].
  split; [intros e template; apply replace1_first_occurrence|].
  intros a e b c Hne Hfree Hfirst Hnext Hclear. split.
  - now apply duplicate_entity_template.
  - now exists a, b, c.
Qed.

(** ** The reconstruction walk *)

Lemma str_eqb_sym (a b : str) : str_eqb a b = str_eqb b a.
Proof.
  unfold str_eqb.
  destruct (list_eq_dec ascii_dec a b), (list_eq_dec ascii_dec b a);
    congruence.
Qed.

Lemma serialize_app (a b : list Word) :
  serialize (a ++ b) = serialize a ++ serialize b.
Proof. apply flat_map_app. Qed.

Lemma add_conll_word_eq (file : file_desc) (word : Word) (st : state) :
  add_conll_word file word st =
  (Ok tt, match file with
          | TRANS_FILE => write_trans (conll_word_line word) st
          | ORIG_FILE => write_orig (conll_word_line word) st
          end).
Proof. now destruct file. Qed.

Lemma add_conll_id_line_eq (file : file_desc) (id : str) (d : Domain.t)
    (st : state) :
  add_conll_id_line file id d st =
  (Ok tt, match file with
          | TRANS_FILE => write_trans (conll_id_line id d) st
          | ORIG_FILE => write_orig (conll_id_line id d) st
          end).
Proof. now destruct file. Qed.

Lemma write_trans_app (a b : str) (st : state) :
  write_trans b (write_trans a st) = write_trans (a ++ b) st.
Proof. unfold write_trans. simpl. now rewrite app_assoc. Qed.

Lemma write_orig_app (a b : str) (st : state) :
  write_orig b (write_orig a st) = write_orig (a ++ b) st.
Proof. unfold write_orig. simpl. now rewrite app_assoc. Qed.

Lemma add_entity_words_inside (file : file_desc) (category : TagCategory.t)
    (tokens : list str) :
  forall n st,
    add_entity_words file category (S n) tokens st =
    (Ok tt,
     let text :=
       serialize (map (fun t => mkWord t (mkTag TagType.I category)) tokens)
     in
     match file with
     | TRANS_FILE => write_trans text st
     | ORIG_FILE => write_orig text st
     end).
Proof.
  induction tokens as [|t ts IH]; intros n st.
  - simpl. unfold ret. f_equal.
    destruct file, st; unfold write_trans, write_orig; simpl;
      now rewrite app_nil_r.
  - cbn [add_entity_words]. unfold bindM.
    rewrite add_conll_word_eq, IH. cbn zeta. f_equal.
    destruct file; cbn [Nat.eqb map serialize flat_map];
      [apply write_trans_app | apply write_orig_app].
Qed.

Lemma add_entity_words_span (file : file_desc) (category : TagCategory.t)
    (tokens : list str) (st : state) :
  add_entity_words file category 0 tokens st =
  (Ok tt,
   match file with
   | TRANS_FILE => write_trans (serialize (span_words category tokens)) st
   | ORIG_FILE => write_orig (serialize (span_words category tokens)) st
   end).
Proof.
  destruct tokens as [|t ts].
  - simpl. unfold ret. f_equal.
    destruct file, st; unfold write_trans, write_orig; simpl;
      now rewrite app_nil_r.
  - cbn [add_entity_words]. unfold bindM.
    rewrite add_conll_word_eq, add_entity_words_inside. cbn zeta. f_equal.
    destruct file; cbn [Nat.eqb span_words serialize flat_map];
      [apply write_trans_app | apply write_orig_app].
Qed.

Lemma getitem_Z_nat {A} (l : list A) (k : nat) (d : A) :
  k < length l -> getitem_Z l (Z.of_nat k) = Ok (nth k l d).
Proof.
  intros Hk. unfold getitem_Z.
  destruct (Z.of_nat k <? 0)%Z eqn:Hneg; [apply Z.ltb_lt in Hneg; lia|].
  rewrite Nat2Z.id. unfold getitem.
  now rewrite (nth_error_nth' l d Hk).
Qed.

Lemma count_tokens_cons (tok : str) (rest : list str) (x : str) :
  count_tokens (tok :: rest) x =
  (if str_eqb tok x then 1 else 0) + count_tokens rest x.
Proof.
  unfold count_tokens. simpl. rewrite (str_eqb_sym x tok).
  destruct (str_eqb tok x); reflexivity.
Qed.

Section Walk.

(** The entity data the walk reads: the categories, the original entity
    texts and the translated entity texts. *)
Variable cats : list TagCategory.t.
Variables origs trans : list str.

(** The walk writes, to each file, the serialized output sentence. *)
Lemma walk_spec (tokens : list str) :
  forall (k : nat) (st : state),
    k + count_tokens tokens TEMPLATE_TOKEN <= length cats ->
    k + count_tokens tokens TEMPLATE_TOKEN <= length origs ->
    k + count_tokens tokens TEMPLATE_TOKEN <= length trans ->
    walk cats origs trans (Z.of_nat k - 1) tokens st =
    (Ok (Z.of_nat (k + count_tokens tokens TEMPLATE_TOKEN) - 1)%Z,
     mkState (translations_index st) (db_amt st)
       (trans_file st ++ serialize (reconstructed cats trans k tokens))
       (orig_file st ++ serialize (reconstructed cats origs k tokens))
       (warnings st)).
Proof.
  induction tokens as [|tok rest IH]; intros k st Hc Ho Ht.
  - simpl. unfold ret, count_tokens. simpl.
    rewrite Nat.add_0_r, !app_nil_r. now destruct st.
  - rewrite count_tokens_cons in *. cbn [walk reconstructed].
    destruct (str_eqb tok TEMPLATE_TOKEN) eqn:Htok.
    + replace (Z.of_nat k - 1 + 1)%Z with (Z.of_nat k) by lia.
      unfold bindM, lift.
      rewrite (getitem_Z_nat cats k TagCategory.Empty) by lia.
      rewrite (getitem_Z_nat origs k []) by lia.
      rewrite (getitem_Z_nat trans k []) by lia.
      rewrite !add_entity_words_span.
      replace (Z.of_nat k) with (Z.of_nat (S k) - 1)%Z by lia.
      rewrite IH by lia.
      f_equal; [do 2 f_equal; lia|].
      unfold write_trans, write_orig. simpl.
      rewrite !serialize_app, <- !app_assoc.
      reflexivity.
    + unfold bindM. rewrite !add_conll_word_eq, IH by lia.
      f_equal. unfold write_trans, write_orig. simpl.
      rewrite <- !app_assoc. reflexivity.
Qed.

Lemma span_words_not_outside (category : TagCategory.t) (tokens : list str) :
  filter is_outside (span_words category tokens) = [].
Proof.
  destruct tokens as [|t ts]; simpl; [reflexivity|].
  induction ts as [|t' ts IH]; simpl; [reflexivity | exact IH].
Qed.

(** The Outside-tagged words of an output sentence are the non-placeholder
    tokens of the template, whatever the entity texts. *)
Lemma reconstructed_outside (ents : list str) (tokens : list str) :
  forall k,
    filter is_outside (reconstructed cats ents k tokens) =
    map outside_word
      (filter (fun tok => negb (str_eqb tok TEMPLATE_TOKEN)) tokens).
Proof.
  induction tokens as [|tok rest IH]; intros k; simpl; [reflexivity|].
  destruct (str_eqb tok TEMPLATE_TOKEN); simpl.
  - now rewrite filter_app, span_words_not_outside, IH.
  - now rewrite IH.
Qed.

(** C7.  The walk over the split template appends to each file the
    serialization of an output sentence in which every non-placeholder
    token is one Outside-tagged word, the same in both files and spelled
    as in the template, and the [k]-th placeholder is the whitespace-split
    text of entity [k] (original text in the original-language file,
    translated text in the other), the first sub-token Begin-tagged and
    the others Inside-tagged, all with the category of entity [k]. *)
Theorem walk_reconstructs (tokens : list str) (k : nat) (st : state) :
  k + count_tokens tokens TEMPLATE_TOKEN <= length cats ->
  k + count_tokens tokens TEMPLATE_TOKEN <= length origs ->
  k + count_tokens tokens TEMPLATE_TOKEN <= length trans ->
  walk cats origs trans (Z.of_nat k - 1) tokens st =
  (Ok (Z.of_nat (k + count_tokens tokens TEMPLATE_TOKEN) - 1)%Z,
   mkState (translations_index st) (db_amt st)
     (trans_file st ++ serialize (reconstructed cats trans k tokens))
     (orig_file st ++ serialize (reconstructed cats origs k tokens))
     (warnings st))
  /\ filter is_outside (reconstructed cats origs k tokens) =
     filter is_outside (reconstructed cats trans k tokens)
  /\ filter is_outside (reconstructed cats trans k tokens) =
     map outside_word
       (filter (fun tok => negb (str_eqb tok TEMPLATE_TOKEN)) tokens)
  /\ (forall ents j rest,
        reconstructed cats ents j (TEMPLATE_TOKEN :: rest) =
        span_words (nth j cats TagCategory.Empty) (split (nth j ents []))
        ++ reconstructed cats ents (S j) rest)
  /\ (forall category t ts,
        span_words category (t :: ts) =
        mkWord t (mkTag TagType.B category)
        :: map (fun t' => mkWord t' (mkTag TagType.I category)) ts).
Proof.
  intros Hc Ho Ht. split; [now apply walk_spec|].
  split; [now rewrite !reconstructed_outside|].
  split; [apply reconstructed_outside|].
  split; [|reflexivity].
  intros ents j rest. cbn [reconstructed]. now rewrite str_eqb_refl.
Qed.

End Walk.

(** ** Emitting a sentence pair *)

Lemma emit_spec (sentence : Sentence) (cats : list TagCategory.t)
    (origs trans : list str) (tokens : list str) (st : state) :
  count_tokens tokens TEMPLATE_TOKEN <= length cats ->
  count_tokens tokens TEMPLATE_TOKEN <= length origs ->
  count_tokens tokens TEMPLATE_TOKEN <= length trans ->
  emit sentence cats origs trans (-1) tokens st =
  (Ok (if max_amt <=? db_amt st + 1 then Break else Continue),
   mkState (translations_index st) (db_amt st + 1)
     (trans_file st
      ++ sentence_block (example_id_of sentence (-1)) Domain.FR
           (reconstructed cats trans 0 tokens)
      ++ separator (db_amt st))
     (orig_file st
      ++ sentence_block (example_id_of sentence (-1)) Domain.FR
           (reconstructed cats origs 0 tokens)
      ++ separator (db_amt st))
     (warnings st)).
Proof.
  intros Hc Ho Ht. unfold emit, bindM, lift, get, ret.
  change (Domain.of_value TARGET_LANGUAGE) with (Ok Domain.FR).
  cbv beta iota. rewrite !add_conll_id_line_eq.
  change (walk cats origs trans (-1) tokens)
    with (walk cats origs trans (Z.of_nat 0 - 1) tokens).
  rewrite walk_spec by (simpl; assumption).
  unfold write, modify, separator, sentence_block, emitted, write_trans,
    write_orig.
  cbn [translations_index db_amt trans_file orig_file warnings].
  destruct (max_amt <=? db_amt st + 1);
    cbn [translations_index db_amt trans_file orig_file warnings];
    rewrite ?app_nil_r, <- ?app_assoc; reflexivity.
Qed.

Lemma getitem_Z_of_nat {A} (l : list A) (k : nat) :
  getitem_Z l (Z.of_nat k) = getitem l k.
Proof.
  unfold getitem_Z.
  destruct (Z.of_nat k <? 0)%Z eqn:Hneg; [apply Z.ltb_lt in Hneg; lia|].
  now rewrite Nat2Z.id.
Qed.

Lemma mapM_range {A} (f : Z -> result A) (n : nat) :
  mapM f (range n) = mapM (fun k => f (Z.of_nat k)) (seq 0 n).
Proof.
  unfold range. generalize 0.
  induction n as [|n IH]; intros m; simpl; [reflexivity|].
  now rewrite IH.
Qed.

Lemma length_range (n : nat) : length (range n) = n.
Proof. unfold range. now rewrite length_map, length_seq. Qed.

Lemma get_entities_total (s : Sentence) :
  exists origs, get_entities s = Ok origs
                /\ length origs = length (entity_indexes s).
Proof.
  unfold get_entities. rewrite mapM_range.
  destruct (mapM_total (fun k => get_entity s (Z.of_nat k))
              (seq 0 (length (entity_indexes s))))
    as [origs Ho].
  - intros k Hk. apply in_seq in Hk. unfold get_entity.
    rewrite getitem_Z_of_nat. unfold getitem.
    destruct (nth_error (entity_indexes s) k) as [e|] eqn:He.
    + simpl. eauto.
    + apply nth_error_None in He. lia.
  - exists origs. split; [exact Ho|].
    rewrite (mapM_length _ _ _ Ho). apply length_seq.
Qed.

Lemma get_entity_categories_total (s : Sentence) :
  built s ->
  exists cats, get_entity_categories s = Ok cats
               /\ length cats = length (entity_indexes s).
Proof.
  intros Hb.
  unfold get_entity_categories. rewrite mapM_range.
  destruct (mapM_total (fun k => get_entity_category s (Z.of_nat k))
              (seq 0 (length (entity_indexes s)))) as [cats Hc].
  - intros k Hk. apply in_seq in Hk. unfold get_entity_category.
    rewrite getitem_Z_of_nat. unfold getitem.
    destruct (nth_error (entity_indexes s) k) as [e|] eqn:He.
    + simpl. apply nth_error_In in He.
      rewrite (built_entity_indexes s Hb) in He.
      pose proof (begin_positions_bound (words s)) as Hbd.
      rewrite Forall_forall in Hbd. specialize (Hbd e He).
      destruct (nth_error (words s) e) as [w|] eqn:Hw.
      * simpl. eauto.
      * apply nth_error_None in Hw. lia.
    + apply nth_error_None in He. lia.
  - exists cats. split; [exact Hc|].
    rewrite (mapM_length _ _ _ Hc). apply length_seq.
Qed.

(** C6.  For a verified sentence whose split template does not hold as
    many placeholders as the sentence has entities, the iteration ends at
    the [continue] after [TemplateTokenMismatchWarning]: no id line and no
    word line has been written to either file. *)
Theorem template_token_mismatch_writes_nothing (results : list str)
    (sentence : Sentence) (st : state) (translations : list str)
    (canonical : str) (translated_entity_tokens : list str)
    (template : str) :
  built sentence ->
  slice (translations_index st)
    (translations_index st + length (entity_indexes sentence)) results
  = translations ->
  length translations = length (entity_indexes sentence) ->
  verify translations = Ok (canonical, None) ->
  mapM get_bracketed_entity translations = Ok translated_entity_tokens ->
  build_template canonical translated_entity_tokens = Ok template ->
  count_tokens (split template) TEMPLATE_TOKEN
  <> length (entity_indexes sentence) ->
  let st' :=
    warn TemplateTokenMismatchWarning
      (advance (length (entity_indexes sentence)) st) in
  process_sentence results sentence st = (Ok Continue, st')
  /\ trans_file st' = trans_file st
  /\ orig_file st' = orig_file st.
Proof.
  intros Hb Htr Hlen Hv Hm Ht Hcount st'.
  split; [|now split].
  destruct (get_entity_categories_total sentence Hb) as (cats & Hcats & Hlc).
  destruct (get_entities_total sentence) as (origs & Horigs & Hlo).
  unfold process_sentence, bindM, get, lift, modify. rewrite Htr.
  rewrite Hlen, Nat.eqb_refl. cbn [assert]. rewrite Hv.
  unfold reconstruct, bindM, lift, modify.
  rewrite Hcats, Horigs, Hm, Ht.
  rewrite Hlc, Hlo, (mapM_length _ _ _ Hm), Hlen, Nat.eqb_refl.
  cbn [andb assert].
  apply Nat.eqb_neq in Hcount. rewrite Hcount. reflexivity.
Qed.

(** ** The output files *)

Lemma layout_nil (sep : str) (capped : bool) : layout sep [] capped = [].
Proof. now destruct capped. Qed.

Ltac skipped :=
  left; eexists _, _; split; [reflexivity|];
  repeat split; try discriminate; try reflexivity.

Lemma process_sentence_outcome (results : list str) (s : Sentence)
    (st : state) :
  (exists r st',
      process_sentence results s st = (r, st')
      /\ r <> Ok Break
      /\ trans_file st' = trans_file st
      /\ orig_file st' = orig_file st
      /\ db_amt st' = db_amt st)
  \/ (exists wo wt st',
         process_sentence results s st =
         (Ok (if max_amt <=? db_amt st + 1 then Break else Continue), st')
         /\ db_amt st' = db_amt st + 1
         /\ trans_file st' =
            trans_file st ++ trans_block (s, wo, wt) ++ separator (db_amt st)
         /\ orig_file st' =
            orig_file st ++ orig_block (s, wo, wt) ++ separator (db_amt st)).
Proof.
  unfold process_sentence, bindM, get, lift, modify, ret.
  set (N := length (entity_indexes s)).
  set (translations :=
         slice (translations_index st) (translations_index st + N) results).
  destruct (length translations =? N) eqn:Hlen; cbn [assert];
    [|skipped].
  destruct (verify translations) as [[main [w|]]|e] eqn:Hv;
    [skipped| |skipped].
  unfold reconstruct, bindM, lift, modify, ret. fold N.
  destruct (get_entity_categories s) as [cats|e] eqn:Hcats; [|skipped].
  destruct (get_entities s) as [origs|e] eqn:Horigs; [|skipped].
  destruct (mapM get_bracketed_entity translations) as [trans|e] eqn:Htrans;
    [|skipped].
  destruct ((length cats =? length origs) && (length origs =? length trans))
    eqn:Hlens; cbn [assert]; [|skipped].
  destruct (build_template main trans) as [template|e] eqn:Htpl; [|skipped].
  destruct (count_tokens (split template) TEMPLATE_TOKEN =? N) eqn:Hcount;
    cbn [negb]; [|skipped].
  apply andb_true_iff in Hlens. destruct Hlens as [H1 H2].
  apply Nat.eqb_eq in H1, H2, Hcount.
  assert (HN : length cats = N).
  { unfold get_entity_categories in Hcats.
    rewrite (mapM_length _ _ _ Hcats). apply length_range. }
  right. exists (reconstructed cats origs 0 (split template)),
           (reconstructed cats trans 0 (split template)).
  rewrite emit_spec by lia.
  eexists. split; [reflexivity|]. now repeat split.
Qed.

(** From a state below the cap, the main loop leaves in each file the
    blocks of the accepted sentences, in order, each followed by two
    newlines except the one that reaches the cap. *)
Lemma run_layout (results : list str) (sentences : list Sentence) :
  forall st,
    db_amt st < max_amt ->
    exists pairs : list accepted,
      let st' := snd (run results sentences st) in
      Forall (fun p => In (fst (fst p)) sentences) pairs
      /\ db_amt st' = db_amt st + length pairs
      /\ db_amt st' <= max_amt
      /\ trans_file st' =
         trans_file st
         ++ layout [NL; NL] (map trans_block pairs) (max_amt <=? db_amt st')
      /\ orig_file st' =
         orig_file st
         ++ layout [NL; NL] (map orig_block pairs) (max_amt <=? db_amt st').
Proof.
  induction sentences as [|s rest IH]; intros st Hcap.
  - exists []. cbn [run]. unfold ret. cbn [snd map length].
    rewrite !layout_nil, !app_nil_r.
      repeat split; try apply Forall_nil; lia.
  - cbn [run]. unfold bindM.
    destruct (process_sentence_outcome results s st)
      as [(r & st1 & Hp & Hr & Ht & Ho & Hd)
         | (wo & wt & st1 & Hp & Hd & Ht & Ho)]; rewrite Hp.
    + assert (Hcap1 : db_amt st1 < max_amt) by lia.
      destruct r as [[|]|e]; [| congruence |].
      * destruct (IH st1 Hcap1) as (pairs & Hin & Hdb & Hle & Htf & Hof).
        exists pairs. cbn zeta in *.
        repeat split; try lia.
        -- eapply Forall_impl; [|exact Hin]. intros p Hp'. now right.
        -- now rewrite Htf, Ht.
        -- now rewrite Hof, Ho.
      * exists []. cbn [snd map length].
        rewrite !layout_nil, !app_nil_r.
        repeat split; try apply Forall_nil; try assumption; lia.
    + unfold separator in *.
      destruct (max_amt <=? db_amt st + 1) eqn:Hcapped.
      * apply Nat.leb_le in Hcapped.
        exists [(s, wo, wt)]. unfold ret. cbn [snd].
        replace (max_amt <=? db_amt st1) with true
          by (symmetry; apply Nat.leb_le; lia).
        repeat split; try (simpl; lia).
        -- constructor; [now left | constructor].
        -- rewrite Ht. unfold layout. cbn [map join].
           now rewrite !app_nil_r.
        -- rewrite Ho. unfold layout. cbn [map join].
           now rewrite !app_nil_r.
      * apply Nat.leb_gt in Hcapped.
        assert (Hcap1 : db_amt st1 < max_amt) by lia.
        destruct (IH st1 Hcap1) as (pairs & Hin & Hdb & Hle & Htf & Hof).
        exists ((s, wo, wt) :: pairs). cbn zeta in *.
        repeat split; try (simpl; lia).
        -- constructor; [now left|].
           eapply Forall_impl; [|exact Hin]. intros p Hp'. now right.
        -- rewrite Htf, Ht. unfold layout.
           destruct (max_amt <=? db_amt (snd (run results rest st1)))
             eqn:Hend.
           ++ apply Nat.leb_le in Hend.
              destruct pairs as [|p pairs]; [simpl in Hdb; lia|].
              cbn [map join]. now rewrite <- !app_assoc.
           ++ cbn [map flat_map]. now rewrite <- !app_assoc.
        -- rewrite Hof, Ho. unfold layout.
           destruct (max_amt <=? db_amt (snd (run results rest st1)))
             eqn:Hend.
           ++ apply Nat.leb_le in Hend.
              destruct pairs as [|p pairs]; [simpl in Hdb; lia|].
              cbn [map join]. now rewrite <- !app_assoc.
           ++ cbn [map flat_map]. now rewrite <- !app_assoc.
Qed.

(** ** The parser *)

Lemma span_forallb (p : ascii -> bool) (s : str) :
  forallb p (fst (span p s)) = true.
Proof.
  induction s as [|c s IH]; simpl; [reflexivity|].
  destruct (p c) eqn:Hc; [|reflexivity].
  destruct (span p s) as [a b]. simpl in *. now rewrite Hc.
Qed.

Lemma match_word_line_token (line tk ty : str) (tg : option str) :
  match_word_line line = Some (tk, ty, tg) -> token_ok tk = true.
Proof.
  unfold match_word_line.
  pose proof (span_forallb (fun c => negb (is_space c)) line) as Hall.
  destruct (span (fun c => negb (is_space c)) line) as [t r].
  simpl in Hall.
  destruct (nonempty t) eqn:Hne; [|discriminate].
  intros H.
  assert (t = tk).
  { destruct (after_prefix (lit " _ _ ") r) as [[|c r']|]; try discriminate.
    destruct (str_eqb [c] (lit "B") || str_eqb [c] (lit "I")
              || str_eqb [c] (lit "O")); [|discriminate].
    destruct r' as [|c' tg'].
    - now injection H.
    - destruct (str_eqb [c'] (lit "-") && nonempty tg'
                && forallb (fun c0 => negb (is_space c0)) tg');
        [now injection H | discriminate]. }
  subst tk. unfold token_ok. rewrite Hall.
  destruct t; [discriminate | reflexivity].
Qed.

Lemma parse_line_well_read (acc acc' : list Sentence * Sentence)
    (line : str) :
  parse_line acc line = Ok acc' ->
  Forall well_read (fst acc) -> well_read (snd acc) ->
  Forall well_read (fst acc') /\ well_read (snd acc').
Proof.
  destruct acc as [sentences sentence]. unfold parse_line.
  cbn [fst snd]. intros H Hs Hcur.
  assert (Hempty : well_read empty_sentence)
    by (split; [apply built_empty | constructor]).
  destruct (negb (nonempty (strip line))).
  - injection H as <-. cbn [fst snd]. split; [|exact Hempty].
    destruct (nonempty (words sentence)); [|exact Hs].
    apply Forall_app. split; [exact Hs | now constructor].
  - destruct (prefix (lit "# id") (strip line)).
    + destruct (match_id_line (strip line)) as [[id code]|]; [|discriminate].
      destruct (id_value sentence); [discriminate|]. cbn [assert bind] in H.
      destruct (Domain.of_value code) as [d|]; [|discriminate].
      injection H as <-. cbn [fst snd]. split; [exact Hs|].
      destruct Hcur as [Hb Hok]. split; [now apply built_id | exact Hok].
    + destruct (match_word_line (strip line)) as [[[tk ty] tg]|] eqn:Hm;
        [|discriminate].
      apply match_word_line_token in Hm.
      destruct (TagType.of_value ty) as [tag_type|]; [|discriminate].
      cbn [bind] in H.
      destruct (if negb (TagType.eqb tag_type TagType.O)
                then TagCategory.of_value tg else Ok TagCategory.Empty)
        as [tag_category|]; [|discriminate].
      injection H as <-. cbn [fst snd]. split; [exact Hs|].
      destruct Hcur as [Hb Hok]. split; [now apply built_add|].
      rewrite add_word_words. apply Forall_app. split; [exact Hok|].
      now constructor.
Qed.

(** Every sentence the parser returns is built by [add_word] from tokens
    of the word-line pattern. *)
Lemma parse_lines_well_read (lines : list str) (sentences : list Sentence) :
  parse_lines lines = Ok sentences ->
  Forall well_read sentences.
Proof.
  unfold parse_lines.
  assert (Hloop : forall ls acc acc',
             parse_loop acc ls = Ok acc' ->
             Forall well_read (fst acc) -> well_read (snd acc) ->
             Forall well_read (fst acc') /\ well_read (snd acc')).
  { induction ls as [|l ls IH]; intros acc acc' H Hs Hcur.
    - injection H as <-. now split.
    - simpl in H. destruct (parse_line acc l) as [acc1|] eqn:Hl;
        [|discriminate].
      destruct (parse_line_well_read _ _ _ Hl Hs Hcur) as [Hs1 Hcur1].
      exact (IH _ _ H Hs1 Hcur1). }
  destruct (parse_loop ([], empty_sentence) lines) as [[ss s]|] eqn:Hp;
    [|discriminate].
  cbn [bind]. intros [= <-].
  destruct (Hloop _ _ _ Hp) as [Hss Hs].
  - constructor.
  - split; [apply built_empty | constructor].
  - cbn [fst snd] in *. destruct (nonempty (words s)); [|exact Hss].
    apply Forall_app. split; [exact Hss | now constructor].
Qed.

(** ** The script on worked inputs *)

Lemma built_example_sentence : built example_sentence.
Proof.
  unfold example_sentence. do 3 apply built_add.
  exact (built_id empty_sentence (Some (lit "abc")) (Some Domain.EN)
           built_empty).
Qed.

Lemma built_plain_sentence : built plain_sentence.
Proof. unfold plain_sentence. apply built_add, built_empty. Qed.

(** C1 on the code.  With the markers of the first translation lost, the
    iteration does not reach the check of the loop: [remove_brackets]
    raises [AssertionError] on [translations[0]], no warning is issued and
    the run ends. *)
Theorem unbracketed_first_translation_raises :
  parse_lines example_lines = Ok [example_sentence]
  /\ check_brackets (nth 0 unbracketed_translations []) = false
  /\ process_sentence unbracketed_translations example_sentence
       initial_state =
     (Raise AssertionError, advance 2 initial_state)
  /\ main example_lines unbracketed_translations initial_state =
     (Raise AssertionError, advance 2 initial_state)
  /\ warnings (advance 2 initial_state) = []
  /\ trans_file (advance 2 initial_state) = []
  /\ orig_file (advance 2 initial_state) = [].
Proof. repeat split. Qed.

(** C9, as the code has it.  Each file holds, for the accepted sentences
    in order, the id line [# id <id>\tdomain=fr] and one line
    [<token> _ _ <tag_format>] per word; every serialized sentence is
    followed by two newlines, so two blank lines separate consecutive
    sentences, except that nothing follows the sentence that reaches the
    cap on emitted sentences. *)
Theorem output_files_layout (results : list str) (sentences : list Sentence) :
  let st' := snd (run results sentences initial_state) in
  exists pairs : list accepted,
    Forall (fun p => In (fst (fst p)) sentences) pairs
    /\ length pairs = db_amt st'
    /\ trans_file st' =
       layout [NL; NL] (map trans_block pairs) (max_amt <=? db_amt st')
    /\ orig_file st' =
       layout [NL; NL] (map orig_block pairs) (max_amt <=? db_amt st')
    /\ (forall s wo wt,
          trans_block (s, wo, wt) =
          lit "# id " ++ example_id_of s (-1) ++ [TAB] ++ lit "domain=fr"
          ++ [NL]
          ++ flat_map (fun w => token w ++ lit " _ _ " ++ tag_format (tag w)
                                ++ [NL]) wt
          /\ orig_block (s, wo, wt) =
             lit "# id " ++ example_id_of s (-1) ++ [TAB] ++ lit "domain=fr"
             ++ [NL]
             ++ flat_map (fun w => token w ++ lit " _ _ "
                                   ++ tag_format (tag w) ++ [NL]) wo).
Proof.
  intros st'.
  destruct (run_layout results sentences initial_state)
    as (pairs & Hin & Hdb & _ & Ht & Ho).
  { unfold initial_state, max_amt. simpl. lia. }
  exists pairs. fold st' in Hdb, Ht, Ho.
  split; [exact Hin|]. split; [simpl in Hdb; lia|].
  split; [exact Ht|]. split; [exact Ho|].
  intros s wo wt. unfold trans_block, orig_block, sentence_block,
    conll_id_line, serialize, conll_word_line.
  split; rewrite <- !app_assoc; reflexivity.
Qed.

(** C9 as stated fails: two accepted sentences are written with two
    blank lines between them, not one. *)
Lemma two_blank_lines_between_sentences :
  let st' := snd (main (example_lines ++ example_lines)
                    (example_translations ++ example_translations)
                    initial_state) in
  parse_lines (example_lines ++ example_lines) =
  Ok [example_sentence; example_sentence]
  /\ trans_file st' = layout [NL; NL] [example_block; example_block] false
  /\ orig_file st' = layout [NL; NL] [example_block; example_block] false
  /\ ~ single_blank_line [example_block; example_block] (trans_file st')
  /\ ~ single_blank_line [example_block; example_block] (orig_file st').
Proof.
  cbv zeta. split; [reflexivity|]. split; [reflexivity|].
  split; [reflexivity|].
  split; intros [H | H]; apply (f_equal (@length _)) in H;
    vm_compute in H; discriminate H.
Qed.

Lemma placeholder_clear_check (e s : str) (la lt : nat) :
  forallb (fun p => negb (prefix e (skipn p s))
                    || (p + length e <=? la) || (la + lt <=? p))
    (seq 0 (S (length s))) = true ->
  forall p, occurs_at e s p -> p + length e <= la \/ la + lt <= p.
Proof.
  intros Hall p Hocc. rewrite forallb_forall in Hall.
  assert (Hp : In p (seq 0 (S (length s)))).
  { apply in_seq. destruct Hocc as (a & r & -> & <-).
    rewrite length_app. lia. }
  specialize (Hall p Hp). rewrite (occurs_at_prefix _ _ _ Hocc) in Hall.
  simpl in Hall. apply orb_true_iff in Hall.
  destruct Hall as [H | H]; [left; now apply Nat.leb_le
                            | right; now apply Nat.leb_le].
Qed.

(** C5 on the code.  The comment of line 426 says the replacement works
    with duplicate entities, and the assertion of line 422 keeps the
    placeholder out of the canonical translation; but [str.replace]
    searches the placeholders already written as well.  For the entity
    text [LA], tagged twice and occurring twice in [LA and LA], the second
    replacement rewrites the letters [LA] of the placeholder written by
    the first: the second occurrence in the canonical translation is left
    in place, no two occurrences are consumed, and the sentence is
    dropped with [TemplateTokenMismatchWarning]. *)
Lemma entity_text_inside_placeholder :
  let canonical := lit "LA and LA" in
  let e := lit "LA" in
  let template := lit "<#TEMP<#TEMPLATE#>TE#> and LA" in
  (exists a b c, canonical = a ++ e ++ b ++ e ++ c)
  /\ verify twice_translations = Ok (canonical, None)
  /\ mapM get_bracketed_entity twice_translations = Ok [e; e]
  /\ build_template canonical [e; e] = Ok template
  /\ ~ consumes_two_occurrences canonical e template
  /\ process_sentence twice_translations twice_sentence initial_state =
     (Ok Continue,
      warn TemplateTokenMismatchWarning (advance 2 initial_state)).
Proof.
  cbv zeta. split; [now exists [], (lit " and "), []|].
  split; [reflexivity|]. split; [reflexivity|].
  split; [reflexivity|]. split; [|reflexivity].
  intros (a & b & c & H1 & H2). destruct a as [|x a].
  - simpl in H2. discriminate H2.
  - simpl in H1, H2. injection H1 as H1 _. injection H2 as H2 _.
    congruence.
Qed.

(** The same slip with two different entity texts: in [Paris LA] the
    replacement of [LA] lands in the placeholder written for [Paris]. *)
Lemma distinct_entities_inside_placeholder :
  build_template (lit "Paris LA") [lit "Paris"; lit "LA"] =
  Ok (lit "<#TEMP<#TEMPLATE#>TE#> LA").
Proof. reflexivity. Qed.

(** ** Instances *)

Lemma entity_indexes_invariant_example :
  entity_indexes example_sentence = begin_positions (words example_sentence).
Proof.
  exact (proj1 (entity_indexes_invariant example_sentence
                  built_example_sentence)).
Defined.

Lemma get_bracketed_sentences_example :
  Forall (fun v => check_brackets v = true /\ count v START_BRACKET = 2)
    example_translations
  /\ StronglySorted lt (entity_indexes example_sentence).
Proof.
  pose proof (get_bracketed_sentences_postcondition example_sentence) as H.
  change (get_bracketed_sentences example_sentence)
    with (Ok example_translations) in H.
  destruct H as (_ & _ & H1 & H2).
  split; [exact H1 | exact (H2 built_example_sentence)].
Defined.

Lemma remove_brackets_bracketed_example :
  remove_brackets (bracketed "Tongzhi" ++ lit " founded IBM") =
  Ok (plain_text example_sentence).
Proof.
  apply (remove_brackets_bracketed example_sentence example_translations).
  - exact built_example_sentence.
  - repeat constructor.
  - reflexivity.
  - now left.
Defined.

Lemma consistency_verifier_example :
  verify example_translations = Ok (lit "Tongzhi founded IBM", None) <->
  (forall t t', In t example_translations -> In t' example_translations ->
                remove_brackets t = remove_brackets t').
Proof.
  pose proof (consistency_verifier_accepts_iff example_translations
                example_sentence initial_state example_translations
                (lit "Tongzhi founded IBM") eq_refl eq_refl
                ltac:(repeat constructor) eq_refl) as H.
  cbv zeta in H. exact (proj1 (proj2 H)).
Defined.

Lemma duplicate_entity_example :
  build_template (lit "Paris to Paris") [lit "Paris"; lit "Paris"] =
  Ok (lit "<#TEMPLATE#> to <#TEMPLATE#>").
Proof.
  refine (proj1 (proj2 (proj2 template_replaces_first_occurrences)
                   [] (lit "Paris") (lit " to ") [] _ _ _ _ _)).
  - discriminate.
  - reflexivity.
  - reflexivity.
  - reflexivity.
  - apply placeholder_clear_check. reflexivity.
Defined.

Lemma template_token_mismatch_example :
  process_sentence fused_translations example_sentence initial_state =
  (Ok Continue,
   warn TemplateTokenMismatchWarning (advance 2 initial_state)).
Proof.
  refine (proj1 (template_token_mismatch_writes_nothing fused_translations
                   example_sentence initial_state fused_translations
                   (lit "Tongzhi, founded IBM") [lit "Tongzhi"; lit "IBM"]
                   (lit "<#TEMPLATE#>, founded <#TEMPLATE#>")
                   built_example_sentence eq_refl eq_refl eq_refl eq_refl
                   eq_refl _)).
  vm_compute. discriminate.
Defined.

Lemma walk_reconstructs_example :
  fst (walk [TagCategory.OtherPER; TagCategory.TechCorp]
         [lit "Tongzhi"; lit "IBM"] [lit "Tongzhi"; lit "IBM"] (-1)
         [TEMPLATE_TOKEN; lit "founded"; TEMPLATE_TOKEN] initial_state)
  = Ok 1%Z.
Proof.
  refine (f_equal fst
            (proj1 (walk_reconstructs
                      [TagCategory.OtherPER; TagCategory.TechCorp]
                      [lit "Tongzhi"; lit "IBM"] [lit "Tongzhi"; lit "IBM"]
                      [TEMPLATE_TOKEN; lit "founded"; TEMPLATE_TOKEN] 0
                      initial_state _ _ _)));
    vm_compute; lia.
Defined.

Lemma zero_entity_sentence_example :
  process_sentence [] plain_sentence initial_state =
  (Raise IndexError, initial_state).
Proof.
  refine (proj1 (proj2 (zero_entity_sentence_raises [] plain_sentence
                          initial_state built_plain_sentence _))).
  intros w [<- | []]. discriminate.
Defined.

(** * Further properties of the code *)

(** ** The bracket helpers *)

Lemma marker_split_unique (a a' r r' : str) :
  count a START_BRACKET = 0 -> count a' START_BRACKET = 0 ->
  a ++ START_BRACKET :: r = a' ++ START_BRACKET :: r' ->
  a = a' /\ r = r'.
Proof.
  revert a'. induction a as [|x a IH]; intros a' Ha Ha' H.
  - destruct a' as [|y a']; simpl in H.
    + injection H as ->. now split.
    + injection H as <- _. simpl in Ha'. discriminate.
  - destruct a' as [|y a']; simpl in H.
    + injection H as -> _. simpl in Ha. discriminate.
    + injection H as <- H. simpl in Ha, Ha'.
      destruct (Ascii.eqb x START_BRACKET); [discriminate|].
      destruct (IH a' Ha Ha' H) as [-> ->]. now split.
Qed.

Lemma remove_bracketed_entity_eq (s : str) (i j : nat) :
  get_bracket_indexes s = Ok (i, j) ->
  remove_bracketed_entity s = Ok (firstn i s ++ skipn (j + 1) s).
Proof.
  intros H. unfold remove_bracketed_entity.
  assert (Hc : check_brackets s = true).
  { unfold get_bracket_indexes in H.
    destruct (check_brackets s); [reflexivity | discriminate]. }
  now rewrite Hc, H.
Qed.

Lemma get_bracket_indexes_raise (s : str) :
  check_brackets s = false -> get_bracket_indexes s = Raise AssertionError.
Proof. intros H. unfold get_bracket_indexes. now rewrite H. Qed.

Lemma skipn_past {A} (a b c : list A) (x y : A) :
  skipn (length a + 1 + length b + 1) (a ++ x :: b ++ y :: c) = c.
Proof.
  replace (a ++ x :: b ++ y :: c) with ((a ++ x :: b ++ [y]) ++ c)
    by (rewrite <- app_assoc; simpl; now rewrite <- app_assoc).
  replace (length a + 1 + length b + 1)
    with (length (a ++ x :: b ++ [y]))
    by (rewrite length_app; simpl; rewrite length_app; simpl; lia).
  apply skipn_length_app.
Qed.

(** X1.  On a string with exactly two markers, [a "b" c], the four helpers
    return the positions of the markers, [a ++ b ++ c], [b] and [a ++ c];
    on any other string each of them raises [AssertionError], never the
    [ValueError] of [str.index]. *)
Theorem bracket_helpers_spec (s : str) :
  if check_brackets s
  then exists a b c,
      s = a ++ [START_BRACKET] ++ b ++ [END_BRACKET] ++ c
      /\ count a START_BRACKET = 0 /\ count b START_BRACKET = 0
      /\ count c START_BRACKET = 0
      /\ get_bracket_indexes s = Ok (length a, length a + 1 + length b)
      /\ remove_brackets s = Ok (a ++ b ++ c)
      /\ get_bracketed_entity s = Ok b
      /\ remove_bracketed_entity s = Ok (a ++ c)
  else get_bracket_indexes s = Raise AssertionError
       /\ remove_brackets s = Raise AssertionError
       /\ get_bracketed_entity s = Raise AssertionError
       /\ remove_bracketed_entity s = Raise AssertionError.
Proof.
  destruct (check_brackets s) eqn:Hc.
  - destruct (brackets_split s Hc)
      as (a & b & c & Hs & Ha & Hb & Hcn & Hi & Hr & He).
    exists a, b, c. repeat split; try assumption.
    rewrite (remove_bracketed_entity_eq s _ _ Hi). f_equal.
    rewrite Hs, firstn_length_app. f_equal. apply skipn_past.
  - repeat split.
    + now apply get_bracket_indexes_raise.
    + now apply remove_brackets_raise.
    + unfold get_bracketed_entity. now rewrite Hc.
    + unfold remove_bracketed_entity. now rewrite Hc.
Qed.

(** X2.  What [remove_brackets] returns is two characters shorter and
    holds no marker, so it fails [check_brackets]: a second
    [remove_brackets] on it raises [AssertionError]. *)
Theorem remove_brackets_once (s t : str) :
  remove_brackets s = Ok t ->
  length t + 2 = length s
  /\ count t START_BRACKET = 0
  /\ check_brackets t = false
  /\ remove_brackets t = Raise AssertionError.
Proof.
  intros H.
  assert (Hc : check_brackets s = true).
  { unfold remove_brackets in H.
    destruct (check_brackets s); [reflexivity | discriminate]. }
  destruct (brackets_split s Hc)
    as (a & b & c & Hs & Ha & Hb & Hcn & _ & Hr & _).
  rewrite Hr in H. injection H as <-.
  assert (H0 : count (a ++ b ++ c) START_BRACKET = 0)
    by (rewrite !count_app; lia).
  assert (Hf : check_brackets (a ++ b ++ c) = false).
  { destruct (check_brackets (a ++ b ++ c)) eqn:Hk; [|reflexivity].
    apply check_brackets_count in Hk. lia. }
  repeat split; try assumption.
  - rewrite Hs, !length_app. simpl. rewrite !length_app. simpl. lia.
  - now apply remove_brackets_raise.
Qed.

(** The helpers on a string given by its three parts. *)
Lemma brackets_parts (a b c : str) :
  count a START_BRACKET = 0 -> count b START_BRACKET = 0 ->
  count c START_BRACKET = 0 ->
  check_brackets (a ++ START_BRACKET :: b ++ END_BRACKET :: c) = true
  /\ remove_brackets (a ++ START_BRACKET :: b ++ END_BRACKET :: c)
     = Ok (a ++ b ++ c)
  /\ get_bracketed_entity (a ++ START_BRACKET :: b ++ END_BRACKET :: c)
     = Ok b
  /\ remove_bracketed_entity (a ++ START_BRACKET :: b ++ END_BRACKET :: c)
     = Ok (a ++ c).
Proof.
  intros Ha Hb Hc.
  assert (Hk : check_brackets (a ++ START_BRACKET :: b ++ END_BRACKET :: c)
               = true).
  { apply check_brackets_count. rewrite count_app. simpl.
    rewrite count_app. simpl. lia. }
  split; [exact Hk|].
  destruct (brackets_split _ Hk)
    as (a' & b' & c' & Hs & Ha' & Hb' & Hc' & Hi & Hr & He).
  change END_BRACKET with START_BRACKET in Hs.
  destruct (marker_split_unique _ _ _ _ Ha Ha' Hs) as [<- Hs'].
  destruct (marker_split_unique _ _ _ _ Hb Hb' Hs') as [<- <-].
  repeat split; try assumption.
  rewrite (remove_bracketed_entity_eq _ _ _ Hi). f_equal.
  rewrite firstn_length_app. f_equal. apply skipn_past.
Qed.

(** ** Entity texts and categories *)

Lemma text_of_cons (w : Word) (ws : list Word) :
  text_of (w :: ws) = token w ++ spaced ws.
Proof.
  unfold text_of. destruct ws as [|w' ws].
  - simpl. now rewrite app_nil_r.
  - rewrite (spaced_join w' ws). reflexivity.
Qed.

Lemma get_entity_loop_after (e : nat) (ws : list Word) :
  forall n acc,
    e < n ->
    get_entity_loop e acc (combine (seq n (length ws)) ws) =
    acc ++ spaced (inside_run ws).
Proof.
  induction ws as [|w ws IH]; intros n acc Hn; simpl.
  - now rewrite app_nil_r.
  - replace (n =? e) with false by (symmetry; apply Nat.eqb_neq; lia).
    replace (e <? n) with true by (symmetry; apply Nat.ltb_lt; lia).
    unfold is_inside. destruct (TagType.eqb (tag_type (tag w)) TagType.I);
      simpl.
    + rewrite IH by lia. now rewrite <- !app_assoc.
    + now rewrite app_nil_r.
Qed.

Lemma get_entity_loop_from (e : nat) (ws : list Word) :
  forall n acc,
    n <= e ->
    get_entity_loop e acc (combine (seq n (length ws)) ws) =
    acc ++ match skipn (e - n) ws with
           | [] => []
           | w :: after => token w ++ spaced (inside_run after)
           end.
Proof.
  induction ws as [|w ws IH]; intros n acc Hn.
  - simpl. destruct (e - n); simpl; now rewrite app_nil_r.
  - cbn [length seq combine get_entity_loop].
    destruct (n =? e) eqn:Hne.
    + apply Nat.eqb_eq in Hne. subst n. rewrite Nat.sub_diag. cbn [skipn].
      rewrite get_entity_loop_after by lia. now rewrite <- app_assoc.
    + apply Nat.eqb_neq in Hne.
      replace (e <? n) with false by (symmetry; apply Nat.ltb_ge; lia).
      rewrite IH by lia.
      replace (e - n) with (S (e - S n)) by lia. reflexivity.
Qed.

Lemma get_entity_loop_span (ws : list Word) (e : nat) :
  get_entity_loop e [] (enumerate ws) = text_of (entity_span ws e).
Proof.
  unfold enumerate. rewrite get_entity_loop_from by lia.
  rewrite Nat.sub_0_r. unfold entity_span.
  destruct (skipn e ws) as [|w after]; [reflexivity|].
  now rewrite text_of_cons.
Qed.

Lemma get_entity_eq (s : Sentence) (k : Z) :
  get_entity s k =
  (entity_index <- getitem_Z (entity_indexes s) k ;;
   Ok (text_of (entity_span (words s) entity_index))).
Proof.
  unfold get_entity. destruct (getitem_Z (entity_indexes s) k); simpl;
    [now rewrite get_entity_loop_span | reflexivity].
Qed.

Lemma getitem_Z_cases {A} (l : list A) (k : Z) (d : A) :
  getitem_Z l k =
  if ((k <? - Z.of_nat (length l)) || (Z.of_nat (length l) <=? k))%Z
  then Raise IndexError
  else Ok (nth (Z.to_nat (if (k <? 0)%Z then k + Z.of_nat (length l) else k))
             l d).
Proof.
  unfold getitem_Z, getitem.
  destruct (k <? 0)%Z eqn:Hneg.
  - apply Z.ltb_lt in Hneg.
    replace (Z.of_nat (length l) <=? k)%Z with false
      by (symmetry; apply Z.leb_gt; lia).
    rewrite orb_false_r.
    destruct (k + Z.of_nat (length l) <? 0)%Z eqn:Hlow.
    + apply Z.ltb_lt in Hlow.
      replace (k <? - Z.of_nat (length l))%Z with true
        by (symmetry; apply Z.ltb_lt; lia).
      reflexivity.
    + apply Z.ltb_ge in Hlow.
      replace (k <? - Z.of_nat (length l))%Z with false
        by (symmetry; apply Z.ltb_ge; lia).
      rewrite (nth_error_nth' l d); [reflexivity | lia].
  - apply Z.ltb_ge in Hneg.
    replace (k <? - Z.of_nat (length l))%Z with false
      by (symmetry; apply Z.ltb_ge; lia).
    cbn [orb].
    destruct (Z.of_nat (length l) <=? k)%Z eqn:Hhigh.
    + apply Z.leb_le in Hhigh.
      destruct (nth_error l (Z.to_nat k)) eqn:He; [|reflexivity].
      assert (Z.to_nat k < length l)
        by (apply nth_error_Some; congruence).
      lia.
    + apply Z.leb_gt in Hhigh.
      rewrite (nth_error_nth' l d); [reflexivity | lia].
Qed.

(** X3.  [get_entity] takes any integer [k], with [n] the number of entity
    indexes.  For [0 <= k < n] it reads the [k]-th entity index and for
    [-n <= k < 0], as Python lists do, the one at [k + n]; it returns the
    tokens of the span that starts there, joined by single spaces: the
    word at that index and the Inside-tagged words directly after it, up
    to the first word tagged otherwise or the end of the sentence.  For
    every other [k], and only then, it raises [IndexError]. *)
Theorem get_entity_span (s : Sentence) (k : Z) :
  let n := Z.of_nat (length (entity_indexes s)) in
  get_entity s k =
  if ((k <? - n) || (n <=? k))%Z then Raise IndexError
  else Ok (text_of
             (entity_span (words s)
                (nth (Z.to_nat (if (k <? 0)%Z then k + n else k))
                   (entity_indexes s) 0))).
Proof.
  cbv zeta. rewrite get_entity_eq, (getitem_Z_cases _ k 0).
  now destruct ((k <? - Z.of_nat (length (entity_indexes s)))
                || (Z.of_nat (length (entity_indexes s)) <=? k))%Z.
Qed.

Lemma mapM_getitem {A B} (g : A -> result B) (l : list A) :
  forall pre,
    mapM (fun k => x <- getitem (pre ++ l) k ;; g x)
      (seq (length pre) (length l)) = mapM g l.
Proof.
  induction l as [|x l IH]; intros pre; simpl; [reflexivity|].
  unfold getitem at 1. rewrite nth_error_app2 by lia.
  rewrite Nat.sub_diag. simpl.
  specialize (IH (pre ++ [x])).
  rewrite <- app_assoc, length_app in IH. simpl in IH.
  replace (length pre + 1) with (S (length pre)) in IH by lia.
  now rewrite IH.
Qed.

Lemma mapM_pure {A B} (f : A -> B) (l : list A) :
  mapM (fun x => Ok (f x)) l = Ok (map f l).
Proof. induction l as [|x l IH]; simpl; [reflexivity | now rewrite IH]. Qed.

Lemma mapM_ext_in {A B} (f g : A -> result B) (l : list A) :
  (forall x, In x l -> f x = g x) -> mapM f l = mapM g l.
Proof.
  induction l as [|x l IH]; intros H; simpl; [reflexivity|].
  rewrite (H x (or_introl eq_refl)), IH; [reflexivity|].
  intros y Hy. apply H. now right.
Qed.

Lemma get_entities_eq (s : Sentence) :
  get_entities s =
  Ok (map (fun e => text_of (entity_span (words s) e)) (entity_indexes s)).
Proof.
  unfold get_entities. rewrite mapM_range.
  rewrite (mapM_ext_in _ (fun k => e <- getitem ([] ++ entity_indexes s) k ;;
                                 Ok (text_of (entity_span (words s) e)))).
  - rewrite (mapM_getitem _ (entity_indexes s) []). apply mapM_pure.
  - intros k _. rewrite get_entity_eq. now rewrite getitem_Z_of_nat.
Qed.

Lemma entity_data_built (s : Sentence) :
  built s ->
  get_entities s =
  Ok (map (fun e => text_of (entity_span (words s) e)) (entity_indexes s))
  /\ get_entity_categories s =
     Ok (map (fun e => tag_category (tag (nth e (words s) (outside_word []))))
           (entity_indexes s))
  /\ Forall (fun e => is_begin (nth e (words s) (outside_word [])) = true
                      /\ e < length (words s))
       (entity_indexes s).
Proof.
  intros Hb.
  assert (Hin : Forall (fun e => is_begin (nth e (words s) (outside_word []))
                                 = true /\ e < length (words s))
                  (entity_indexes s)).
  { apply Forall_forall. intros e He.
    rewrite (built_entity_indexes s Hb) in He.
    apply begin_positions_In in He. destruct He as (w & Hw & Hty).
    assert (Hlt : e < length (words s))
      by (apply nth_error_Some; congruence).
    split; [|exact Hlt].
    rewrite (nth_error_nth _ _ (outside_word []) Hw).
    unfold is_begin. now apply tagtype_eqb_eq. }
  split; [|split; [|exact Hin]].
  - apply get_entities_eq.
  - unfold get_entity_categories. rewrite mapM_range.
    rewrite (mapM_ext_in _
               (fun k => e <- getitem ([] ++ entity_indexes s) k ;;
                         (word <- getitem (words s) e ;;
                          Ok (tag_category (tag word)))))
      by (intros k _; unfold get_entity_category;
          now rewrite getitem_Z_of_nat).
    rewrite (mapM_getitem _ (entity_indexes s) []).
    rewrite (mapM_ext_in _ (fun e => Ok (tag_category
                                           (tag (nth e (words s)
                                                   (outside_word [])))))).
    + apply mapM_pure.
    + intros e He. rewrite Forall_forall in Hin.
      destruct (Hin e He) as [_ Hlt]. unfold getitem.
      now rewrite (nth_error_nth' _ (outside_word []) Hlt).
Qed.

(** X4.  On a sentence built by [add_word], [get_entities] and
    [get_entity_categories] never raise: they return, for each entity index
    in order, the text of its span and the category of its first word,
    which is Begin-tagged. *)
Theorem entity_data_of_built (s : Sentence) :
  built s ->
  get_entities s =
  Ok (map (fun e => text_of (entity_span (words s) e)) (entity_indexes s))
  /\ get_entity_categories s =
     Ok (map (fun e => tag_category (tag (nth e (words s) (outside_word []))))
           (entity_indexes s))
  /\ Forall (fun e => is_begin (nth e (words s) (outside_word [])) = true
                      /\ e < length (words s))
       (entity_indexes s).
Proof. exact (entity_data_built s). Qed.

(** ** Markers in the tokens *)

Lemma space_not_marker (c : ascii) :
  is_space c = true -> Ascii.eqb c START_BRACKET = false.
Proof.
  intros H. destruct (Ascii.eqb c START_BRACKET) eqn:Hc; [|reflexivity].
  apply Ascii.eqb_eq in Hc. subst c. discriminate.
Qed.

Lemma count_lstrip (s : str) :
  count (lstrip s) START_BRACKET = count s START_BRACKET.
Proof.
  induction s as [|c s IH]; simpl; [reflexivity|].
  destruct (is_space c) eqn:Hc; [|reflexivity].
  now rewrite (space_not_marker c Hc), IH.
Qed.

Lemma count_rev (s : str) (c : ascii) : count (rev s) c = count s c.
Proof.
  induction s as [|x s IH]; simpl; [reflexivity|].
  rewrite count_app, IH. simpl. lia.
Qed.

Lemma count_strip (s : str) :
  count (strip s) START_BRACKET = count s START_BRACKET.
Proof.
  unfold strip, rstrip.
  now rewrite count_rev, count_lstrip, count_rev, count_lstrip.
Qed.

Lemma count_spaced (ws : list Word) :
  count (spaced ws) START_BRACKET = 0 <->
  existsb (fun w => has_marker (token w)) ws = false.
Proof.
  induction ws as [|w ws IH]; simpl; [tauto|].
  rewrite count_app, orb_false_iff, <- IH. unfold has_marker.
  rewrite negb_false_iff, Nat.eqb_eq. lia.
Qed.

Lemma bracketed_sentence_for_marker (s : Sentence) (e : nat) :
  e < length (words s) ->
  bracketed_sentence_for s e =
  if existsb (fun w => has_marker (token w)) (words s)
  then Raise ValueError
  else Ok (strip (closed_text e 0 false (words s))).
Proof.
  intros He. unfold bracketed_sentence_for. rewrite build_bracketed_eq.
  cbn [bind].
  pose proof (count_bracket_text e (words s) 0 false ltac:(discriminate))
    as Hcount.
  replace ((0 <=? e) && (e <? 0 + length (words s))) with true in Hcount
    by (symmetry; apply andb_true_iff; split;
        [apply Nat.leb_le | apply Nat.ltb_lt]; lia).
  destruct (existsb (fun w => has_marker (token w)) (words s)) eqn:Hm.
  - destruct (check_brackets (strip (closed_text e 0 false (words s))))
      eqn:Hc; [|reflexivity].
    apply check_brackets_count in Hc. rewrite count_strip in Hc.
    assert (H0 : count (spaced (words s)) START_BRACKET = 0) by lia.
    apply count_spaced in H0. congruence.
  - apply count_spaced in Hm.
    assert (Hc : check_brackets (strip (closed_text e 0 false (words s)))
                 = true)
      by (apply check_brackets_count; rewrite count_strip; lia).
    now rewrite Hc.
Qed.

Lemma get_bracketed_sentences_built (s : Sentence) :
  built s ->
  if nonempty (entity_indexes s)
     && existsb (fun w => has_marker (token w)) (words s)
  then get_bracketed_sentences s = Raise ValueError
  else get_bracketed_sentences s =
       Ok (map (fun e => strip (closed_text e 0 false (words s)))
             (entity_indexes s)).
Proof.
  intros Hb.
  assert (Hbd : forall e, In e (entity_indexes s) -> e < length (words s)).
  { rewrite (built_entity_indexes s Hb).
    pose proof (begin_positions_bound (words s)) as H.
    now rewrite Forall_forall in H. }
  unfold get_bracketed_sentences.
  destruct (existsb (fun w => has_marker (token w)) (words s)) eqn:Hm.
  - destruct (entity_indexes s) as [|e es] eqn:He; simpl; [reflexivity|].
    rewrite bracketed_sentence_for_marker by (apply Hbd; now left).
    now rewrite Hm.
  - rewrite andb_false_r.
    rewrite (mapM_ext_in _ (fun e => Ok (strip (closed_text e 0 false
                                                   (words s))))).
    + rewrite mapM_pure. cbn [bind]. now rewrite length_map, Nat.eqb_refl.
    + intros e He. rewrite bracketed_sentence_for_marker by now apply Hbd.
      now rewrite Hm.
Qed.

(** X5.  On a sentence built by [add_word], [get_bracketed_sentences]
    raises [ValueError] exactly when the sentence has an entity and one of
    its tokens holds the marker character; otherwise it returns one string
    per entity. *)
Theorem get_bracketed_sentences_marker (s : Sentence) :
  built s ->
  if nonempty (entity_indexes s)
     && existsb (fun w => has_marker (token w)) (words s)
  then get_bracketed_sentences s = Raise ValueError
  else get_bracketed_sentences s =
       Ok (map (fun e => strip (closed_text e 0 false (words s)))
             (entity_indexes s)).
Proof. exact (get_bracketed_sentences_built s). Qed.

(** ** The shape of a bracketed variant *)

Lemma spaced_app (a b : list Word) : spaced (a ++ b) = spaced a ++ spaced b.
Proof. apply flat_map_app. Qed.

Lemma bracket_text_plain (e : nat) (ws : list Word) :
  forall n,
    e < n \/ n + length ws <= e ->
    bracket_text e n false ws = (spaced ws, false).
Proof.
  induction ws as [|w ws IH]; intros n Hn; [reflexivity|].
  cbn [bracket_text]. simpl length in Hn.
  replace (n =? e) with false by (symmetry; apply Nat.eqb_neq; lia).
  cbn [andb]. rewrite IH by lia. reflexivity.
Qed.

Lemma inside_run_split (ws : list Word) :
  ws = inside_run ws ++ skipn (length (inside_run ws)) ws.
Proof.
  induction ws as [|w ws IH]; simpl; [reflexivity|].
  destruct (is_inside w); simpl; [now rewrite <- IH | reflexivity].
Qed.

(** From inside the entity: the Inside-tagged run, the closing marker and
    the rest. *)
Lemma closed_text_inside (e : nat) (ws : list Word) :
  forall n,
    e < n ->
    closed_text e n true ws =
    spaced (inside_run ws) ++ END_BRACKET
    :: spaced (skipn (length (inside_run ws)) ws).
Proof.
  unfold closed_text.
  induction ws as [|w ws IH]; intros n Hn; [reflexivity|].
  cbn [bracket_text inside_run].
  replace (n =? e) with false by (symmetry; apply Nat.eqb_neq; lia).
  unfold is_inside. cbn [andb].
  destruct (TagType.eqb (tag_type (tag w)) TagType.I); cbn [negb].
  - specialize (IH (S n) ltac:(lia)).
    destruct (bracket_text e (S n) true ws) as [x b]. cbn [fst snd] in *.
    cbn [length skipn spaced flat_map]. fold (spaced (inside_run ws)).
    rewrite <- !app_assoc. rewrite IH. reflexivity.
  - rewrite bracket_text_plain by lia. cbn [fst snd length skipn].
    simpl. now rewrite app_nil_r.
Qed.

Lemma closed_text_span (ws : list Word) (e : nat) (w : Word)
    (after : list Word) :
  skipn e ws = w :: after ->
  closed_text e 0 false ws =
  spaced (firstn e ws) ++ lit " "
  ++ START_BRACKET :: text_of (entity_span ws e)
  ++ END_BRACKET :: spaced (skipn (length (inside_run after)) after).
Proof.
  intros Hsk.
  assert (Hlen : length (firstn e ws) = e).
  { apply firstn_length_le.
    destruct (Nat.le_gt_cases e (length ws)) as [H | H]; [exact H|].
    rewrite skipn_all2 in Hsk by lia. discriminate. }
  assert (Hgen : forall pre n,
             n + length pre = e ->
             closed_text e n false (pre ++ w :: after) =
             spaced pre ++ lit " "
             ++ START_BRACKET :: token w ++ closed_text e (S e) true after).
  { unfold closed_text. induction pre as [|p pre IH]; intros n Hn.
    - simpl in Hn. rewrite Nat.add_0_r in Hn. subst n.
      cbn [app bracket_text]. rewrite Nat.eqb_refl.
      destruct (bracket_text e (S e) true after) as [x b]. cbn [fst snd].
      simpl. now rewrite <- !app_assoc.
    - simpl in Hn. cbn [app bracket_text].
      replace (n =? e) with false by (symmetry; apply Nat.eqb_neq; lia).
      cbn [andb]. specialize (IH (S n) ltac:(lia)).
      destruct (bracket_text e (S n) false (pre ++ w :: after)) as [x b].
      cbn [fst snd] in *. cbn [spaced flat_map]. fold (spaced pre).
      rewrite <- !app_assoc. rewrite IH. now rewrite <- ?app_assoc. }
  rewrite <- (firstn_skipn e ws) at 1. rewrite Hsk.
  rewrite (Hgen (firstn e ws) 0) by lia.
  rewrite closed_text_inside by lia.
  unfold entity_span. rewrite Hsk, text_of_cons.
  now rewrite <- !app_assoc.
Qed.

Lemma spaced_lead (pre : list Word) :
  exists a, spaced pre ++ lit " " = lit " " ++ a
            /\ count a START_BRACKET = count (spaced pre) START_BRACKET.
Proof.
  destruct pre as [|p pre].
  - exists []. now split.
  - exists (token p ++ spaced pre ++ lit " "). split.
    + simpl. now rewrite <- !app_assoc.
    + simpl. rewrite !count_app. simpl. lia.
Qed.

Lemma Forall2_nth_error_r {A B} (R : A -> B -> Prop) (l : list A)
    (l' : list B) :
  Forall2 R l l' ->
  forall k y, nth_error l' k = Some y ->
              exists x, nth_error l k = Some x /\ R x y.
Proof.
  induction 1 as [|x y l l' Hxy _ IH]; intros k z Hk.
  - destruct k; discriminate.
  - destruct k as [|k]; simpl in *.
    + injection Hk as <-. now exists x.
    + now apply IH.
Qed.

(** The variant of a well-read sentence for the entity at [e], in parts. *)
Lemma variant_parts (s : Sentence) (e : nat) (v : str) :
  well_read s -> In e (entity_indexes s) ->
  bracketed_sentence_for s e = Ok v ->
  exists a c,
    v = a ++ START_BRACKET :: text_of (entity_span (words s) e)
        ++ END_BRACKET :: c
    /\ count a START_BRACKET = 0
    /\ count (text_of (entity_span (words s) e)) START_BRACKET = 0
    /\ count c START_BRACKET = 0.
Proof.
  intros [Hb Hok] He Hv.
  assert (Hlt : e < length (words s)).
  { rewrite (built_entity_indexes s Hb) in He.
    pose proof (begin_positions_bound (words s)) as H.
    rewrite Forall_forall in H. now apply H. }
  assert (Hne : words s <> [])
    by (destruct (words s); simpl in *; [lia | discriminate]).
  apply bracketed_sentence_for_Ok in Hv. destruct Hv as [Hbv Hc].
  rewrite build_bracketed_eq in Hbv. injection Hbv as Hbv.
  pose proof (closed_text_strip e (words s) Hok Hne) as Hstrip.
  rewrite Hbv in Hstrip.
  destruct (skipn e (words s)) as [|w after] eqn:Hsk.
  { apply (f_equal (@length _)) in Hsk. rewrite length_skipn in Hsk.
    simpl in Hsk. lia. }
  rewrite (closed_text_span _ _ _ _ Hsk) in Hstrip.
  destruct (spaced_lead (firstn e (words s))) as (a & Ha & Hca).
  rewrite app_assoc, Ha, <- app_assoc in Hstrip.
  simpl in Hstrip. injection Hstrip as Hstrip.
  exists a, (spaced (skipn (length (inside_run after)) after)).
  split; [exact Hstrip|].
  apply check_brackets_count in Hc. rewrite Hstrip in Hc.
  rewrite count_app in Hc. simpl in Hc. rewrite count_app in Hc.
  simpl in Hc. lia.
Qed.

(** X6.  For a sentence as the parser builds it, the text between the
    markers of the [k]-th string of [get_bracketed_sentences] is the text
    [get_entity] returns for entity [k], and what
    [remove_bracketed_entity] leaves of that string holds no marker. *)
Theorem bracketed_entity_is_entity (s : Sentence) (l : list str) (k : nat)
    (v : str) :
  well_read s ->
  get_bracketed_sentences s = Ok l ->
  nth_error l k = Some v ->
  get_bracketed_entity v = get_entity s (Z.of_nat k)
  /\ exists a c,
       remove_bracketed_entity v = Ok (a ++ c)
       /\ remove_brackets v = Ok (a ++ text_of (entity_span (words s)
                                               (nth k (entity_indexes s) 0))
                                  ++ c)
       /\ count (a ++ c) START_BRACKET = 0.
Proof.
  intros Hw Hl Hk.
  unfold get_bracketed_sentences in Hl.
  destruct (mapM (bracketed_sentence_for s) (entity_indexes s))
    as [l'|] eqn:Hm; simpl in Hl; [|discriminate].
  rewrite (mapM_length _ _ _ Hm), Nat.eqb_refl in Hl. simpl in Hl.
  injection Hl as ->. apply mapM_Ok in Hm.
  destruct (Forall2_nth_error_r _ _ _ Hm k v Hk) as (e & He & Hev).
  destruct (variant_parts s e v Hw (nth_error_In _ _ He) Hev)
    as (a & c & Hv & Ha & Hent & Hc).
  destruct (brackets_parts a _ c Ha Hent Hc) as (_ & Hr & Hg & Hre).
  change END_BRACKET with START_BRACKET in Hv, Hr, Hg, Hre.
  rewrite <- Hv in Hr, Hg, Hre.
  rewrite (nth_error_nth _ _ 0 He).
  split.
  - rewrite Hg, get_entity_eq, getitem_Z_of_nat. unfold getitem.
    now rewrite He.
  - exists a, c. split; [exact Hre|]. split; [exact Hr|].
    rewrite count_app. lia.
Qed.

(** ** Splitting an entity text *)

Lemma token_ok_rev (cur : str) :
  cur <> [] -> forallb (fun c => negb (is_space c)) cur = true ->
  token_ok (rev cur) = true.
Proof.
  intros Hne Hall. unfold token_ok. apply andb_true_iff. split.
  - destruct (rev cur) eqn:Hr; [|reflexivity].
    apply (f_equal (@rev _)) in Hr. rewrite rev_involutive in Hr.
    simpl in Hr. congruence.
  - rewrite forallb_forall in *. intros c Hc. apply Hall.
    now apply in_rev.
Qed.

Lemma split_from_ok (s : str) :
  forall cur,
    forallb (fun c => negb (is_space c)) cur = true ->
    Forall (fun t => token_ok t = true) (split_from cur s).
Proof.
  induction s as [|c s IH]; intros cur Hcur; simpl.
  - destruct cur as [|x cur]; constructor; [|constructor].
    now apply token_ok_rev.
  - destruct (is_space c) eqn:Hc.
    + destruct cur as [|x cur]; [now apply IH|].
      constructor; [now apply token_ok_rev | now apply IH].
    + apply IH. simpl. now rewrite Hc.
Qed.

Lemma split_from_run (t : str) :
  forall cur s,
    forallb (fun c => negb (is_space c)) t = true ->
    split_from cur (t ++ s) = split_from (rev t ++ cur) s.
Proof.
  induction t as [|c t IH]; intros cur s Ht; [reflexivity|].
  simpl in Ht. apply andb_true_iff in Ht. destruct Ht as [Hc Ht].
  apply negb_true_iff in Hc. simpl. rewrite Hc, IH by exact Ht.
  now rewrite <- app_assoc.
Qed.

Lemma split_join (toks : list str) :
  Forall (fun t => token_ok t = true) toks ->
  split (join (lit " ") toks) = toks.
Proof.
  unfold split. induction 1 as [|t toks Ht _ IH]; [reflexivity|].
  unfold token_ok in Ht. apply andb_true_iff in Ht. destruct Ht as [Hne Ht].
  assert (Hr : rev t <> []).
  { intros Hr. apply (f_equal (@rev _)) in Hr.
    rewrite rev_involutive in Hr. simpl in Hr. subst t. discriminate. }
  destruct toks as [|t' toks].
  - simpl. rewrite <- (app_nil_r t) at 1.
    rewrite split_from_run by exact Ht. rewrite app_nil_r. simpl.
    destruct (rev t) eqn:Hrev; [congruence|].
    now rewrite <- Hrev, rev_involutive.
  - cbn [join]. rewrite split_from_run by exact Ht. rewrite app_nil_r.
    simpl. destruct (rev t) eqn:Hrev; [congruence|].
    rewrite <- Hrev, rev_involutive. f_equal. exact IH.
Qed.

Lemma inside_run_Forall (P : Word -> Prop) (ws : list Word) :
  Forall P ws -> Forall P (inside_run ws).
Proof.
  induction 1 as [|w ws Hw _ IH]; simpl; [constructor|].
  destruct (is_inside w); [now constructor | constructor].
Qed.

Lemma skipn_Forall {A} (P : A -> Prop) (n : nat) (l : list A) :
  Forall P l -> Forall P (skipn n l).
Proof.
  revert l. induction n as [|n IH]; intros l H; [exact H|].
  destruct l as [|x l]; [constructor|]. simpl. apply IH.
  now inversion H.
Qed.

Lemma entity_span_Forall (P : Word -> Prop) (ws : list Word) (e : nat) :
  Forall P ws -> Forall P (entity_span ws e).
Proof.
  intros H. unfold entity_span.
  pose proof (skipn_Forall P e ws H) as Hs.
  destruct (skipn e ws) as [|w after]; [constructor|].
  inversion Hs; subst. constructor; [assumption|].
  now apply inside_run_Forall.
Qed.

(** X7.  For a sentence as the parser builds it, splitting the text
    [get_entities] returns for an entity gives back the tokens of its
    span, one at least: the walk writes to the original-language file the
    tokens of the source span, the first Begin-tagged and the others
    Inside-tagged with the category of the first. *)
Theorem original_entity_words (s : Sentence) :
  well_read s ->
  exists origs cats,
    get_entities s = Ok origs
    /\ get_entity_categories s = Ok cats
    /\ length origs = length (entity_indexes s)
    /\ length cats = length (entity_indexes s)
    /\ forall k e,
         nth_error (entity_indexes s) k = Some e ->
         exists w after,
           entity_span (words s) e = w :: after
           /\ is_begin w = true
           /\ split (nth k origs []) = map token (w :: after)
           /\ span_words (nth k cats TagCategory.Empty)
                (split (nth k origs [])) =
              mkWord (token w) (mkTag TagType.B (tag_category (tag w)))
              :: map (fun w' => mkWord (token w')
                                  (mkTag TagType.I (tag_category (tag w))))
                   after.
Proof.
  intros [Hb Hok].
  destruct (get_entity_categories_total s Hb) as (cats & Hcats & Hlc).
  exists (map (fun e => text_of (entity_span (words s) e)) (entity_indexes s)),
    cats.
  split; [apply get_entities_eq|]. split; [exact Hcats|].
  split; [apply length_map|]. split; [exact Hlc|].
  intros k e He.
  assert (Hin : In e (entity_indexes s)) by (eapply nth_error_In; eauto).
  rewrite (built_entity_indexes s Hb) in Hin.
  apply begin_positions_In in Hin. destruct Hin as (w & Hw & Hty).
  assert (Hsk : exists after, skipn e (words s) = w :: after).
  { destruct (nth_error_split _ _ Hw) as (l1 & l2 & Hs & Hl).
    exists l2. rewrite Hs, <- Hl. apply skipn_length_app. }
  destruct Hsk as [after' Hsk].
  exists w, (inside_run after').
  assert (Hspan : entity_span (words s) e = w :: inside_run after')
    by (unfold entity_span; now rewrite Hsk).
  assert (Hsplit : split (nth k (map (fun e0 => text_of
                                        (entity_span (words s) e0))
                                   (entity_indexes s)) [])
                   = map token (w :: inside_run after')).
  { pose proof (map_nth_error
                  (fun e0 => text_of (entity_span (words s) e0)) k
                  (entity_indexes s) He) as Hmap.
    erewrite nth_error_nth by exact Hmap.
    unfold text_of. rewrite split_join; [now rewrite Hspan|].
    apply Forall_map. apply entity_span_Forall. exact Hok. }
  split; [exact Hspan|].
  split; [unfold is_begin; now apply tagtype_eqb_eq|].
  split; [exact Hsplit|].
  rewrite Hsplit.
  assert (Hcat : nth k cats TagCategory.Empty = tag_category (tag w)).
  { unfold get_entity_categories in Hcats. rewrite mapM_range in Hcats.
    apply mapM_Ok in Hcats.
    assert (Hk : k < length (entity_indexes s))
      by (apply nth_error_Some; congruence).
    assert (Hseq : nth_error (seq 0 (length (entity_indexes s))) k = Some k).
    { rewrite nth_error_nth' with (d := 0) by (rewrite length_seq; lia).
      now rewrite seq_nth. }
    assert (Hck : exists c, nth_error cats k = Some c).
    { destruct (nth_error cats k) eqn:Hc; [eauto|].
      apply nth_error_None in Hc. lia. }
    destruct Hck as [c Hc].
    destruct (Forall2_nth_error_r _ _ _ Hcats k c Hc) as (k' & Hk' & Hg).
    rewrite Hseq in Hk'. injection Hk' as <-.
    unfold get_entity_category in Hg. rewrite getitem_Z_of_nat in Hg.
    unfold getitem in Hg. rewrite He in Hg.
    cbn [bind] in Hg. rewrite Hw in Hg. cbn [bind] in Hg.
    injection Hg as <-. now apply nth_error_nth. }
  rewrite Hcat. cbn [map span_words]. f_equal. now rewrite map_map.
Qed.

(** ** Reading back what is written *)

Lemma span_app (p : ascii -> bool) (t r : str) (c : ascii) :
  forallb p t = true -> p c = false -> span p (t ++ c :: r) = (t, c :: r).
Proof.
  intros Ht Hc. induction t as [|x t IH]; simpl.
  - now rewrite Hc.
  - simpl in Ht. apply andb_true_iff in Ht. destruct Ht as [Hx Ht].
    now rewrite Hx, (IH Ht).
Qed.

Lemma after_prefix_app (p r : str) : after_prefix p (p ++ r) = Some r.
Proof.
  unfold after_prefix. now rewrite prefix_app, skipn_length_app.
Qed.

Lemma ends_nonspace_check (s : str) :
  match rev s with
  | c :: _ => negb (is_space c)
  | [] => false
  end = true ->
  ends_nonspace s.
Proof.
  destruct (rev s) as [|c r] eqn:Hr; [discriminate|].
  intros Hc. exists (rev r), c. split; [|now apply negb_true_iff].
  apply (f_equal (@rev _)) in Hr. now rewrite rev_involutive in Hr.
Qed.

(** [strip] removes the newline that ends a written line. *)
Lemma strip_line (g : str) :
  starts_nonspace g -> ends_nonspace g -> strip (g ++ [NL]) = g.
Proof.
  intros (c & r & Hg & Hc) (r' & c' & Hr & Hc').
  assert (H1 : lstrip (g ++ [NL]) = g ++ [NL])
    by (rewrite Hg; simpl; now rewrite Hc).
  unfold strip. rewrite H1. unfold rstrip.
  rewrite Hr, <- app_assoc, !rev_app_distr. simpl. rewrite Hc'. simpl.
  now rewrite rev_involutive.
Qed.

Lemma space_eqb (c : ascii) :
  is_space c = false -> Ascii.eqb " " c = false.
Proof.
  intros H. destruct (Ascii.eqb " " c) eqn:Hc; [|reflexivity].
  apply Ascii.eqb_eq in Hc. subst c. discriminate.
Qed.

Lemma token_ok_parts (tk : str) :
  token_ok tk = true ->
  nonempty tk = true /\ forallb (fun c => negb (is_space c)) tk = true.
Proof.
  unfold token_ok. intros H. apply andb_true_iff in H.
  destruct H as [H1 H2]. split; [now destruct tk | exact H2].
Qed.

Lemma word_line_not_id (tk r : str) :
  token_ok tk = true -> prefix (lit "# id") (tk ++ lit " _ _ " ++ r) = false.
Proof.
  intros H. apply token_ok_parts in H. destruct H as [Hne Hall].
  change (lit "# id") with ["#"%char; " "%char; "i"%char; "d"%char].
  change (lit " _ _ ")
    with [" "%char; "_"%char; " "%char; "_"%char; " "%char].
  destruct tk as [|c0 [|c1 tk]]; [discriminate| |].
  - cbn [prefix app]. apply andb_false_iff. right.
    apply andb_false_iff. right. reflexivity.
  - simpl in Hall. apply andb_true_iff in Hall. destruct Hall as [_ Hall].
    apply andb_true_iff in Hall. destruct Hall as [H1 _].
    apply negb_true_iff in H1. cbn [prefix app].
    apply andb_false_iff. right. now rewrite (space_eqb c1 H1).
Qed.

Lemma match_word_line_written (tk r : str) :
  token_ok tk = true ->
  match_word_line (tk ++ lit " _ _ " ++ r) =
  match r with
  | ty :: r' =>
      if str_eqb [ty] (lit "B") || str_eqb [ty] (lit "I")
         || str_eqb [ty] (lit "O")
      then match r' with
           | [] => Some (tk, [ty], None)
           | c :: tg =>
               if str_eqb [c] (lit "-") && nonempty tg
                  && forallb (fun c => negb (is_space c)) tg
               then Some (tk, [ty], Some tg)
               else None
           end
      else None
  | [] => None
  end.
Proof.
  intros H. apply token_ok_parts in H. destruct H as [Hne Hall].
  unfold match_word_line.
  change (tk ++ lit " _ _ " ++ r) with (tk ++ " "%char :: lit "_ _ " ++ r).
  rewrite (span_app _ tk _ " "%char Hall eq_refl). rewrite Hne.
  change (" "%char :: lit "_ _ " ++ r) with (lit " _ _ " ++ r).
  rewrite after_prefix_app. reflexivity.
Qed.

(** A written word line is read back as the word. *)
Lemma parse_word_line (ss : list Sentence) (s : Sentence) (w : Word) :
  word_ok w = true ->
  parse_line (ss, s) (conll_word_line w) = Ok (ss, add_word s w).
Proof.
  unfold word_ok. intros H. apply andb_true_iff in H. destruct H as [Htk Hwf].
  destruct w as [tk [ty c]]. cbn [token tag] in *.
  assert (Hstrip : strip (conll_word_line (mkWord tk (mkTag ty c)))
                   = tk ++ lit " _ _ " ++ tag_format (mkTag ty c)).
  { unfold conll_word_line. cbn [token tag].
    rewrite !app_assoc. apply strip_line.
    - destruct (token_ok_starts tk Htk) as (c0 & r & -> & Hc0).
      exists c0. eexists. split; [reflexivity | exact Hc0].
    - apply ends_nonspace_app. apply ends_nonspace_check.
      destruct ty, c; try discriminate Hwf; reflexivity. }
  unfold parse_line. rewrite Hstrip.
  replace (nonempty (tk ++ lit " _ _ " ++ tag_format (mkTag ty c)))
    with true by (destruct tk; [discriminate Htk | reflexivity]).
  cbn [negb]. rewrite (word_line_not_id tk _ Htk).
  rewrite (match_word_line_written tk _ Htk).
  destruct ty, c; try discriminate Hwf; reflexivity.
Qed.

Lemma parse_word_lines (ws : list Word) :
  Forall (fun w => word_ok w = true) ws ->
  forall ss s,
    parse_loop (ss, s) (map conll_word_line ws) =
    Ok (ss, fold_left add_word ws s).
Proof.
  induction 1 as [|w ws Hw _ IH]; intros ss s; [reflexivity|].
  cbn [map parse_loop fold_left]. rewrite (parse_word_line ss s w Hw).
  cbn [bind]. apply IH.
Qed.

Lemma domain_value_lower (d : Domain.t) :
  nonempty (Domain.value d) && forallb is_lower (Domain.value d) = true.
Proof. now destruct d. Qed.

Lemma domain_round_trip (d : Domain.t) :
  Domain.of_value (Domain.value d) = Ok d.
Proof. now destruct d. Qed.

(** A written id line is read back as the id and the domain. *)
Lemma parse_id_line (ss : list Sentence) (s : Sentence) (id : str)
    (d : Domain.t) :
  id_ok id = true -> id_value s = None ->
  parse_line (ss, s) (conll_id_line id d) =
  Ok (ss, mkSentence (Some id) (Some d) (words s) (entity_indexes s)).
Proof.
  unfold id_ok. intros H Hnone. apply andb_true_iff in H.
  destruct H as [Hne Hall].
  assert (Hstrip : strip (conll_id_line id d)
                   = lit "# id " ++ id ++ [TAB] ++ lit "domain="
                     ++ Domain.value d).
  { unfold conll_id_line. rewrite !app_assoc. apply strip_line.
    - exists "#"%char. eexists. split; [reflexivity | reflexivity].
    - apply ends_nonspace_app. apply ends_nonspace_check. now destruct d. }
  unfold parse_line. rewrite Hstrip.
  change (nonempty (lit "# id " ++ id ++ [TAB] ++ lit "domain="
                    ++ Domain.value d)) with true.
  cbn [negb].
  change (prefix (lit "# id") (lit "# id " ++ id ++ [TAB] ++ lit "domain="
                               ++ Domain.value d)) with true.
  cbv iota. unfold match_id_line. rewrite after_prefix_app.
  change (id ++ [TAB] ++ lit "domain=" ++ Domain.value d)
    with (id ++ TAB :: lit "domain=" ++ Domain.value d).
  rewrite (span_app is_id_char id _ TAB Hall eq_refl). rewrite Hne.
  change (is_space TAB) with true. cbn [andb].
  rewrite after_prefix_app, domain_value_lower, Hnone. cbn [assert bind].
  now rewrite domain_round_trip.
Qed.

Lemma parse_loop_app (a b : list str) :
  forall acc,
    parse_loop acc (a ++ b) =
    (acc' <- parse_loop acc a ;; parse_loop acc' b).
Proof.
  induction a as [|l a IH]; intros acc; [reflexivity|].
  simpl. destruct (parse_line acc l) as [acc'|]; simpl;
    [apply IH | reflexivity].
Qed.

Lemma fold_add_word_words (ws : list Word) :
  forall s, words (fold_left add_word ws s) = words s ++ ws.
Proof.
  induction ws as [|w ws IH]; intros s; simpl.
  - now rewrite app_nil_r.
  - rewrite IH, add_word_words. now rewrite <- app_assoc.
Qed.

Lemma parse_block (b : block) (ss : list Sentence) :
  block_ok b ->
  parse_loop (ss, empty_sentence) (block_lines b) =
  Ok (ss ++ [block_sentence b], empty_sentence).
Proof.
  destruct b as [[id d] ws]. intros (Hid & Hne & Hws).
  unfold block_lines, block_sentence.
  cbn [parse_loop]. rewrite (parse_id_line ss empty_sentence id d Hid eq_refl).
  cbn [bind words entity_indexes empty_sentence].
  rewrite parse_loop_app. rewrite (parse_word_lines ws Hws). cbn [bind].
  cbn [parse_loop]. unfold parse_line at 1.
  change (strip [NL]) with (@nil ascii). cbn [nonempty negb].
  rewrite fold_add_word_words. cbn [words app].
  destruct ws as [|w ws]; [congruence|]. cbn [nonempty bind].
  reflexivity.
Qed.

Lemma parse_written_blocks_aux (blocks : list block) :
  Forall block_ok blocks ->
  parse_lines (flat_map block_lines blocks) = Ok (map block_sentence blocks).
Proof.
  intros Hok. unfold parse_lines.
  assert (Hloop : forall ss,
             parse_loop (ss, empty_sentence) (flat_map block_lines blocks) =
             Ok (ss ++ map block_sentence blocks, empty_sentence)).
  { induction Hok as [|b bs Hb _ IH]; intros ss.
    - simpl. now rewrite app_nil_r.
    - cbn [flat_map map]. rewrite parse_loop_app, (parse_block b ss Hb).
      cbn [bind]. rewrite IH. now rewrite <- app_assoc. }
  rewrite (Hloop []). reflexivity.
Qed.

(** X8.  The lines the script writes are read back by its own parser: for
    blocks with an id of id characters and at least one word, all words
    having a token without whitespace and a category exactly when not
    Outside-tagged, parsing the id line, the word lines and the two
    newlines of each block returns, in order, the sentences with these
    ids, domains and words. *)
Theorem parse_written_blocks (blocks : list block) :
  Forall block_ok blocks ->
  parse_lines (flat_map block_lines blocks) = Ok (map block_sentence blocks).
Proof. exact (parse_written_blocks_aux blocks). Qed.

(** ** What the parser guarantees *)

Lemma tagcategory_of_value_value (v : str) (c : TagCategory.t) :
  TagCategory.of_value (Some v) = Ok c -> TagCategory.value c = v.
Proof.
  unfold TagCategory.of_value.
  destruct (List.find (fun c0 => str_eqb (TagCategory.value c0) v)
              TagCategory.all) as [c0|] eqn:Hf; [|discriminate].
  intros [= <-]. apply List.find_some in Hf. destruct Hf as [_ Hf].
  now apply str_eqb_eq.
Qed.

Lemma match_word_line_tag (line tk ty : str) (tg : option str) :
  match_word_line line = Some (tk, ty, tg) ->
  match tg with
  | Some x => nonempty x = true
  | None => True
  end.
Proof.
  unfold match_word_line.
  destruct (span (fun c => negb (is_space c)) line) as [t r].
  destruct (nonempty t); [|discriminate].
  destruct (after_prefix (lit " _ _ ") r) as [[|c r']|]; try discriminate.
  destruct (str_eqb [c] (lit "B") || str_eqb [c] (lit "I")
            || str_eqb [c] (lit "O")); [|discriminate].
  destruct r' as [|c' tg'].
  - intros [= _ _ <-]. exact I.
  - destruct (str_eqb [c'] (lit "-")); [|discriminate].
    destruct (nonempty tg') eqn:Hne; [|discriminate].
    destruct (forallb (fun c0 => negb (is_space c0)) tg'); [|discriminate].
    intros [= _ _ <-]. exact Hne.
Qed.

Lemma match_id_line_id (line id code : str) :
  match_id_line line = Some (id, code) -> id_ok id = true.
Proof.
  unfold match_id_line.
  destruct (after_prefix (lit "# id ") line) as [r|]; [|discriminate].
  pose proof (span_forallb is_id_char r) as Hall.
  destruct (span is_id_char r) as [i r0]. simpl in Hall.
  destruct r0 as [|c r']; [discriminate|].
  destruct (nonempty i) eqn:Hne; [|discriminate].
  destruct (is_space c); [|discriminate]. cbn [andb].
  destruct (after_prefix (lit "domain=") r') as [d|]; [|discriminate].
  destruct (nonempty d && forallb is_lower d); [|discriminate].
  intros [= <- _]. unfold id_ok. now rewrite Hne, Hall.
Qed.

Lemma read_ok_empty : read_ok empty_sentence.
Proof.
  split; [split; [apply built_empty | constructor]|].
  split; [constructor | reflexivity].
Qed.

Lemma parse_line_read_ok (acc acc' : list Sentence * Sentence)
    (line : str) :
  parse_line acc line = Ok acc' ->
  Forall (fun s => read_ok s /\ words s <> []) (fst acc) ->
  read_ok (snd acc) ->
  Forall (fun s => read_ok s /\ words s <> []) (fst acc')
  /\ read_ok (snd acc').
Proof.
  destruct acc as [sentences sentence]. unfold parse_line.
  cbn [fst snd]. intros H Hs Hcur.
  destruct (negb (nonempty (strip line))).
  - injection H as <-. cbn [fst snd]. split; [|exact read_ok_empty].
    destruct (nonempty (words sentence)) eqn:Hne; [|exact Hs].
    apply Forall_app. split; [exact Hs|]. constructor; [|constructor].
    split; [exact Hcur|]. now destruct (words sentence).
  - destruct (prefix (lit "# id") (strip line)).
    + destruct (match_id_line (strip line)) as [[id code]|] eqn:Hm;
        [|discriminate].
      apply match_id_line_id in Hm.
      destruct (id_value sentence); [discriminate|]. cbn [assert bind] in H.
      destruct (Domain.of_value code) as [d|]; [|discriminate].
      injection H as <-. cbn [fst snd]. split; [exact Hs|].
      destruct Hcur as ([Hb Hok] & Hw & _).
      split; [split; [now apply built_id | exact Hok]|].
      split; [exact Hw|]. cbn [id_value domain]. split; [exact Hm|].
      discriminate.
    + destruct (match_word_line (strip line)) as [[[tk ty] tg]|] eqn:Hm;
        [|discriminate].
      pose proof (match_word_line_token _ _ _ _ Hm) as Htk.
      pose proof (match_word_line_tag _ _ _ _ Hm) as Htg.
      destruct (TagType.of_value ty) as [tag_type|]; [|discriminate].
      cbn [bind] in H.
      destruct (if negb (TagType.eqb tag_type TagType.O)
                then TagCategory.of_value tg else Ok TagCategory.Empty)
        as [tag_category|] eqn:Hcat; [|discriminate].
      injection H as <-. cbn [fst snd]. split; [exact Hs|].
      assert (Hwf : tag_wf (mkTag tag_type tag_category) = true).
      { destruct tag_type; cbn [TagType.eqb negb] in Hcat.
        - destruct tg as [x|]; [|discriminate].
          apply tagcategory_of_value_value in Hcat.
          destruct tag_category; try reflexivity.
          simpl in Hcat. subst x. discriminate.
        - destruct tg as [x|]; [|discriminate].
          apply tagcategory_of_value_value in Hcat.
          destruct tag_category; try reflexivity.
          simpl in Hcat. subst x. discriminate.
        - now injection Hcat as <-. }
      destruct Hcur as ([Hb Hok] & Hw & Hid).
      split; [split; [now apply built_add|]|].
      * rewrite add_word_words. apply Forall_app. split; [exact Hok|].
        now constructor.
      * split.
        -- rewrite add_word_words. apply Forall_app. split; [exact Hw|].
           constructor; [|constructor]. unfold word_ok. cbn [token tag].
           now rewrite Htk, Hwf.
        -- exact Hid.
Qed.

(** X9.  Every sentence the parser returns has at least one word and is
    built by [add_word]; each of its tokens is non-empty and free of
    whitespace, each of its tags has the category [Empty] exactly when it
    is Outside, and its id, when it has one, is made of id characters and
    comes with a domain. *)
Theorem parse_lines_read_ok (lines : list str) (sentences : list Sentence) :
  parse_lines lines = Ok sentences ->
  Forall (fun s => read_ok s /\ words s <> []) sentences.
Proof.
  unfold parse_lines.
  assert (Hloop : forall ls acc acc',
             parse_loop acc ls = Ok acc' ->
             Forall (fun s => read_ok s /\ words s <> []) (fst acc) ->
             read_ok (snd acc) ->
             Forall (fun s => read_ok s /\ words s <> []) (fst acc')
             /\ read_ok (snd acc')).
  { induction ls as [|l ls IH]; intros acc acc' H Hs Hcur.
    - injection H as <-. now split.
    - simpl in H. destruct (parse_line acc l) as [acc1|] eqn:Hl;
        [|discriminate].
      destruct (parse_line_read_ok _ _ _ Hl Hs Hcur) as [Hs1 Hcur1].
      exact (IH _ _ H Hs1 Hcur1). }
  destruct (parse_loop ([], empty_sentence) lines) as [[ss s]|] eqn:Hp;
    [|discriminate].
  cbn [bind]. intros [= <-].
  destruct (Hloop _ _ _ Hp (Forall_nil _) read_ok_empty) as [Hss Hs].
  cbn [fst snd] in *. destruct (nonempty (words s)) eqn:Hne; [|exact Hss].
  apply Forall_app. split; [exact Hss|]. constructor; [|constructor].
  split; [exact Hs|]. now destruct (words s).
Qed.

Lemma parse_line_blank (ss : list Sentence) (s : Sentence) (b : str) :
  strip b = [] ->
  parse_line (ss, s) b =
  Ok (if nonempty (words s) then ss ++ [s] else ss, empty_sentence).
Proof. intros H. unfold parse_line. now rewrite H. Qed.

(** X10.  Blank lines do not add up: after a line that is empty once
    stripped, a second such line changes nothing, whatever comes before
    and after. *)
Theorem parse_lines_blank_twice (a c : list str) (b1 b2 : str) :
  strip b1 = [] -> strip b2 = [] ->
  parse_lines (a ++ [b1; b2] ++ c) = parse_lines (a ++ [b1] ++ c).
Proof.
  intros H1 H2. unfold parse_lines.
  rewrite !parse_loop_app.
  destruct (parse_loop ([], empty_sentence) a) as [[ss s]|]; [|reflexivity].
  cbn [bind app parse_loop].
  rewrite (parse_line_blank ss s b1 H1). cbn [bind].
  rewrite (parse_line_blank _ empty_sentence b2 H2). reflexivity.
Qed.

(** ** What the loop writes can be read back *)

Lemma process_sentence_written (results : list str) (s : Sentence)
    (st : state) :
  (exists r st',
      process_sentence results s st = (r, st')
      /\ r <> Ok Break
      /\ trans_file st' = trans_file st
      /\ orig_file st' = orig_file st
      /\ db_amt st' = db_amt st)
  \/ (exists cats origs trans template st',
         get_entity_categories s = Ok cats
         /\ get_entities s = Ok origs
         /\ length cats = length (entity_indexes s)
         /\ count_tokens (split template) TEMPLATE_TOKEN
            = length (entity_indexes s)
         /\ 0 < length (entity_indexes s)
         /\ process_sentence results s st =
            (Ok (if max_amt <=? db_amt st + 1 then Break else Continue), st')
         /\ db_amt st' = db_amt st + 1
         /\ trans_file st' =
            trans_file st
            ++ sentence_block (example_id_of s (-1)) Domain.FR
                 (reconstructed cats trans 0 (split template))
            ++ separator (db_amt st)
         /\ orig_file st' =
            orig_file st
            ++ sentence_block (example_id_of s (-1)) Domain.FR
                 (reconstructed cats origs 0 (split template))
            ++ separator (db_amt st)).
Proof.
  unfold process_sentence, bindM, get, lift, modify, ret.
  set (N := length (entity_indexes s)).
  set (translations :=
         slice (translations_index st) (translations_index st + N) results).
  destruct (length translations =? N) eqn:Hlen; cbn [assert];
    [|skipped].
  destruct (verify translations) as [[main [w|]]|e] eqn:Hv;
    [skipped| |skipped].
  assert (HN : 0 < N).
  { unfold verify in Hv. destruct translations as [|t0 ts]; [discriminate|].
    apply Nat.eqb_eq in Hlen. simpl in Hlen. lia. }
  unfold reconstruct, bindM, lift, modify, ret. fold N.
  destruct (get_entity_categories s) as [cats|e] eqn:Hcats; [|skipped].
  destruct (get_entities s) as [origs|e] eqn:Horigs; [|skipped].
  destruct (mapM get_bracketed_entity translations) as [trans|e] eqn:Htrans;
    [|skipped].
  destruct ((length cats =? length origs) && (length origs =? length trans))
    eqn:Hlens; cbn [assert]; [|skipped].
  destruct (build_template main trans) as [template|e] eqn:Htpl; [|skipped].
  destruct (count_tokens (split template) TEMPLATE_TOKEN =? N) eqn:Hcount;
    cbn [negb]; [|skipped].
  apply andb_true_iff in Hlens. destruct Hlens as [H1 H2].
  apply Nat.eqb_eq in H1, H2, Hcount.
  assert (Hc : length cats = N).
  { unfold get_entity_categories in Hcats.
    rewrite (mapM_length _ _ _ Hcats). apply length_range. }
  right. exists cats, origs, trans, template.
  rewrite emit_spec by lia.
  eexists. repeat split; try reflexivity; assumption.
Qed.

Lemma id_ok_app (a b : str) :
  id_ok a = true -> forallb is_id_char b = true -> id_ok (a ++ b) = true.
Proof.
  unfold id_ok. intros H Hb. apply andb_true_iff in H. destruct H as [Hne Ha].
  rewrite forallb_app, Ha, Hb. now destruct a.
Qed.

Lemma example_id_ok (s : Sentence) :
  read_ok s -> id_ok (example_id_of s (-1)) = true.
Proof.
  intros (_ & _ & Hid). unfold example_id_of, str_of_option.
  destruct (id_value s) as [id|].
  - destruct Hid as [Hid _]. now apply id_ok_app.
  - reflexivity.
Qed.

Lemma span_words_ok (category : TagCategory.t) (toks : list str) :
  category <> TagCategory.Empty ->
  Forall (fun t => token_ok t = true) toks ->
  Forall (fun w => word_ok w = true) (span_words category toks).
Proof.
  intros Hc Ht.
  assert (HB : tag_wf (mkTag TagType.B category) = true)
    by (destruct category; first [reflexivity | congruence]).
  assert (HI : tag_wf (mkTag TagType.I category) = true)
    by (destruct category; first [reflexivity | congruence]).
  destruct Ht as [|t toks Ht Hts]; [constructor|].
  cbn [span_words]. constructor.
  - unfold word_ok. cbn [token tag]. now rewrite Ht, HB.
  - apply Forall_map. eapply Forall_impl; [|exact Hts].
    intros t' Ht'. unfold word_ok. cbn [token tag]. now rewrite Ht', HI.
Qed.

Lemma reconstructed_ok (cats : list TagCategory.t) (ents tokens : list str) :
  Forall (fun c => c <> TagCategory.Empty) cats ->
  Forall (fun t => token_ok t = true) tokens ->
  forall k,
    k + count_tokens tokens TEMPLATE_TOKEN <= length cats ->
    Forall (fun w => word_ok w = true) (reconstructed cats ents k tokens).
Proof.
  intros Hcats Htok. induction Htok as [|tok rest Ht _ IH]; intros k Hk;
    [constructor|].
  rewrite count_tokens_cons in Hk. cbn [reconstructed].
  destruct (str_eqb tok TEMPLATE_TOKEN).
  - apply Forall_app. split; [|apply IH; lia].
    apply span_words_ok; [|apply split_from_ok; reflexivity].
    rewrite Forall_forall in Hcats. apply Hcats. apply nth_In. lia.
  - constructor; [|apply IH; lia].
    unfold word_ok, outside_word. cbn [token tag]. now rewrite Ht.
Qed.

Lemma reconstructed_nonempty (cats : list TagCategory.t)
    (ents tokens : list str) (k : nat) :
  0 < count_tokens tokens TEMPLATE_TOKEN ->
  split (nth k ents []) <> [] ->
  reconstructed cats ents k tokens <> [].
Proof.
  destruct tokens as [|tok rest]; intros Hc Hsplit.
  - unfold count_tokens in Hc. simpl in Hc. lia.
  - cbn [reconstructed].
    destruct (str_eqb tok TEMPLATE_TOKEN); [|discriminate].
    destruct (split (nth k ents [])) as [|t ts]; [congruence|].
    discriminate.
Qed.

(** X11.  For a sentence as the parser returns it, whatever the
    translations are, the sentence pair the loop accepts is written in a
    form its own parser accepts: the id is made of id characters, every
    written word has a token free of whitespace and a well-formed tag, and
    the original-language sentence has at least one word, so that parsing
    its lines returns it; so does parsing the lines of the
    translated-language sentence whenever it has a word. *)
Theorem written_blocks_readable (results : list str) (s : Sentence)
    (st : state) :
  read_ok s ->
  db_amt (snd (process_sentence results s st)) <> db_amt st ->
  exists wo wt,
    orig_file (snd (process_sentence results s st)) =
    orig_file st ++ orig_block (s, wo, wt) ++ separator (db_amt st)
    /\ trans_file (snd (process_sentence results s st)) =
       trans_file st ++ trans_block (s, wo, wt) ++ separator (db_amt st)
    /\ block_ok (example_id_of s (-1), Domain.FR, wo)
    /\ parse_lines (block_lines (example_id_of s (-1), Domain.FR, wo))
       = Ok [block_sentence (example_id_of s (-1), Domain.FR, wo)]
    /\ Forall (fun w => word_ok w = true) wt
    /\ (wt <> [] ->
        parse_lines (block_lines (example_id_of s (-1), Domain.FR, wt))
        = Ok [block_sentence (example_id_of s (-1), Domain.FR, wt)]).
Proof.
  intros Hr Hdb.
  destruct (process_sentence_written results s st)
    as [(r & st1 & Hp & _ & _ & _ & Hd)
       | (cats & origs & trans & template & st1 & Hcats & Horigs & Hlc
          & Hcount & HN & Hp & Hd & Ht & Ho)];
    rewrite Hp in *; cbn [snd] in *; [congruence|].
  destruct Hr as ([Hb Hok] & Hw & Hid).
  assert (Hr : read_ok s) by (split; [split|split]; assumption).
  destruct (entity_data_built s Hb) as (Horigs' & Hcats' & Hbegin).
  rewrite Horigs in Horigs'. injection Horigs' as ->.
  rewrite Hcats in Hcats'. injection Hcats' as ->.
  assert (Hne : Forall (fun c => c <> TagCategory.Empty)
                  (map (fun e => tag_category
                                   (tag (nth e (words s) (outside_word []))))
                     (entity_indexes s))).
  { apply Forall_map. eapply Forall_impl; [|exact Hbegin].
    intros e [Hbe Hlt]. rewrite Forall_forall in Hw.
    specialize (Hw _ (nth_In _ (outside_word []) Hlt)).
    unfold word_ok in Hw. apply andb_true_iff in Hw. destruct Hw as [_ Hw].
    unfold is_begin in Hbe. apply tagtype_eqb_eq in Hbe.
    unfold tag_wf in Hw. rewrite Hbe in Hw.
    intros Hc. rewrite Hc in Hw. discriminate. }
  assert (Htok : Forall (fun t => token_ok t = true) (split template))
    by (apply split_from_ok; reflexivity).
  set (cats := map (fun e => tag_category
                               (tag (nth e (words s) (outside_word []))))
                 (entity_indexes s)) in *.
  set (origs := map (fun e => text_of (entity_span (words s) e))
                  (entity_indexes s)) in *.
  assert (Hwo : Forall (fun w => word_ok w = true)
                  (reconstructed cats origs 0 (split template)))
    by (apply reconstructed_ok; [assumption | assumption | simpl; lia]).
  assert (Hwt : Forall (fun w => word_ok w = true)
                  (reconstructed cats trans 0 (split template)))
    by (apply reconstructed_ok; [assumption | assumption | simpl; lia]).
  assert (Hnonempty : reconstructed cats origs 0 (split template) <> []).
  { apply reconstructed_nonempty; [lia|].
    destruct (nth_error (entity_indexes s) 0) as [e|] eqn:He;
      [|apply nth_error_None in He; lia].
    unfold origs.
    erewrite nth_error_nth
      by exact (map_nth_error
                  (fun e0 => text_of (entity_span (words s) e0)) 0
                  (entity_indexes s) He).
    rewrite Forall_forall in Hbegin.
    destruct (Hbegin e (nth_error_In _ _ He)) as [_ Hlt].
    unfold text_of. rewrite split_join
      by (apply Forall_map, entity_span_Forall; exact Hok).
    unfold entity_span.
    destruct (skipn e (words s)) as [|w after] eqn:Hsk; [|discriminate].
    apply (f_equal (@length _)) in Hsk. rewrite length_skipn in Hsk.
    simpl in Hsk. lia. }
  exists (reconstructed cats origs 0 (split template)),
    (reconstructed cats trans 0 (split template)).
  pose proof (example_id_ok s Hr) as Hidok.
  assert (Hbo : block_ok (example_id_of s (-1), Domain.FR,
                          reconstructed cats origs 0 (split template)))
    by (repeat split; assumption).
  split; [exact Ho|]. split; [exact Ht|]. split; [exact Hbo|].
  split.
  - pose proof (parse_written_blocks_aux [_] (Forall_cons _ Hbo (Forall_nil _)))
      as H. cbn [flat_map map] in H. now rewrite app_nil_r in H.
  - split; [exact Hwt|]. intros Hwtne.
    assert (Hbt : block_ok (example_id_of s (-1), Domain.FR,
                            reconstructed cats trans 0 (split template)))
      by (repeat split; assumption).
    pose proof (parse_written_blocks_aux [_] (Forall_cons _ Hbt (Forall_nil _)))
      as H. cbn [flat_map map] in H. now rewrite app_nil_r in H.
Qed.

(** ** One iteration of the loop *)

Lemma verify_loop_find (main : str) (ts : list str) :
  verify_loop main ts =
  Ok (match List.find
              (fun t => negb (check_brackets t && str_eqb (unq t) main)) ts
      with
      | Some t => Some (if check_brackets t then TranslationMismatchWarning
                        else BracketsNotFoundWarning)
      | None => None
      end).
Proof.
  induction ts as [|t ts IH]; cbn [verify_loop List.find]; [reflexivity|].
  destruct (check_brackets t) eqn:Hc; cbn [negb andb];
    [|now rewrite Hc].
  rewrite (remove_brackets_unq t Hc). cbn [bind].
  destruct (str_eqb (unq t) main); cbn [negb]; [exact IH|].
  now rewrite Hc.
Qed.

Lemma find_none_checked (main : str) (ts : list str) :
  List.find (fun t => negb (check_brackets t && str_eqb (unq t) main)) ts
  = None ->
  Forall (fun t => check_brackets t = true) ts.
Proof.
  intros H. apply Forall_forall. intros t Ht.
  pose proof (List.find_none _ _ H t Ht) as Hn. cbv beta in Hn.
  apply negb_false_iff, andb_true_iff in Hn. tauto.
Qed.

(** X12.  The outcome of one iteration on a sentence built by [add_word],
    case by case: too few translations left, no entity, a first
    translation without its two markers, the first translation of the list
    that fails a check, a canonical translation that holds the placeholder,
    a template with the wrong count of placeholders, and the accepted
    sentence.  The lookups of the entity data and the assertion on their
    lengths never fail. *)
Theorem process_sentence_table (results : list str) (s : Sentence)
    (st : state) :
  built s ->
  let N := length (entity_indexes s) in
  let ts := slice (translations_index st) (translations_index st + N) results in
  let st1 := advance N st in
  let P := process_sentence results s st in
  if negb (length ts =? N) then P = (Raise AssertionError, st)
  else
    match ts with
    | [] => P = (Raise IndexError, st1)
    | t0 :: _ =>
        if negb (check_brackets t0) then P = (Raise AssertionError, st1)
        else
          match List.find
                  (fun t => negb (check_brackets t
                                  && str_eqb (unq t) (unq t0))) ts
          with
          | Some t =>
              P = (Ok Continue,
                   warn (if check_brackets t then TranslationMismatchWarning
                         else BracketsNotFoundWarning) st1)
          | None =>
              if contains TEMPLATE_TOKEN (unq t0)
              then P = (Raise AssertionError, st1)
              else
                exists cats origs trans,
                  get_entity_categories s = Ok cats
                  /\ get_entities s = Ok origs
                  /\ mapM get_bracketed_entity ts = Ok trans
                  /\ let tokens :=
                       split (fold_left
                                (fun template e =>
                                   replace1 e TEMPLATE_TOKEN template)
                                trans (unq t0)) in
                     if count_tokens tokens TEMPLATE_TOKEN =? N
                     then
                       P = (Ok (if max_amt <=? db_amt st + 1
                                then Break else Continue),
                            mkState (translations_index st + N)
                              (db_amt st + 1)
                              (trans_file st
                               ++ sentence_block (example_id_of s (-1))
                                    Domain.FR
                                    (reconstructed cats trans 0 tokens)
                               ++ separator (db_amt st))
                              (orig_file st
                               ++ sentence_block (example_id_of s (-1))
                                    Domain.FR
                                    (reconstructed cats origs 0 tokens)
                               ++ separator (db_amt st))
                              (warnings st))
                     else
                       P = (Ok Continue,
                            warn TemplateTokenMismatchWarning st1)
          end
    end.
Proof.
  intros Hb N ts st1 P. subst P.
  unfold process_sentence, bindM, get, lift, modify, ret. fold N. fold ts.
  destruct (length ts =? N) eqn:Hlen; cbn [assert negb]; [|reflexivity].
  fold st1. apply Nat.eqb_eq in Hlen.
  destruct ts as [|t0 ts'] eqn:Hts; [reflexivity|].
  unfold verify. cbn [getitem nth_error bind].
  destruct (check_brackets t0) eqn:Hc0; cbn [negb];
    [|now rewrite (remove_brackets_raise t0 Hc0)].
  rewrite (remove_brackets_unq t0 Hc0). cbn [bind].
  rewrite verify_loop_find. cbn [bind].
  destruct (List.find _ (t0 :: ts')) as [t|] eqn:Hf; [reflexivity|].
  pose proof (find_none_checked _ _ Hf) as Hchk.
  unfold reconstruct, bindM, lift, modify, ret. fold N.
  destruct (get_entity_categories_total s Hb) as (cats & Hcats & Hlc).
  destruct (get_entities_total s) as (origs & Horigs & Hlo).
  destruct (mapM_total get_bracketed_entity (t0 :: ts')) as (trans & Htrans).
  { intros t Ht. rewrite Forall_forall in Hchk.
    destruct (brackets_split t (Hchk t Ht)) as (a & b & c & H).
    exists b. apply H. }
  pose proof (mapM_length _ _ _ Htrans) as Hlt.
  rewrite Hcats, Horigs, Htrans.
  replace ((length cats =? length origs) && (length origs =? length trans))
    with true
    by (symmetry; apply andb_true_iff; split; apply Nat.eqb_eq;
        fold N in Hlc, Hlo; lia).
  cbn [assert]. unfold build_template.
  destruct (contains TEMPLATE_TOKEN (unq t0)); cbn [negb assert bind];
    [reflexivity|].
  exists cats, origs, trans. repeat split; try reflexivity.
  cbv zeta.
  destruct (count_tokens _ TEMPLATE_TOKEN =? N) eqn:Hcount; cbn [negb];
    [|reflexivity].
  apply Nat.eqb_eq in Hcount. fold N in Hlc, Hlo.
  rewrite emit_spec by lia. reflexivity.
Qed.

(** ** The cursor into the translations and the cap *)

Ltac step_done :=
  eexists _, _; split; [reflexivity|];
  cbn [translations_index db_amt advance warn];
  repeat split;
  first [ left; split; [eexists; reflexivity | reflexivity]
        | right; left; split; reflexivity
        | right; split; [assumption | reflexivity]
        | discriminate
        | intros; assumption
        | idtac ].

Lemma process_sentence_step (results : list str) (s : Sentence)
    (st : state) :
  let N := length (entity_indexes s) in
  let ts := slice (translations_index st) (translations_index st + N) results in
  exists r st',
    process_sentence results s st = (r, st')
    /\ (((exists e, r = Raise e) /\ db_amt st' = db_amt st)
        \/ (r = Ok Continue /\ db_amt st' = db_amt st)
        \/ (r = Ok (if max_amt <=? db_amt st + 1 then Break else Continue)
            /\ db_amt st' = db_amt st + 1))
    /\ ((st' = st /\ r = Raise AssertionError /\ length ts <> N)
        \/ (length ts = N
            /\ translations_index st' = translations_index st + N))
    /\ (forall x, r = Ok x -> 0 < N).
Proof.
  intros N ts.
  unfold process_sentence, bindM, get, lift, modify, ret. fold N. fold ts.
  destruct (length ts =? N) eqn:Hlen; cbn [assert].
  2:{ apply Nat.eqb_neq in Hlen. eexists _, _. split; [reflexivity|].
      split; [left; split; [eexists|]; reflexivity|].
      split; [left; now repeat split | discriminate]. }
  apply Nat.eqb_eq in Hlen.
  destruct (verify ts) as [[main [w|]]|e] eqn:Hv.
  - assert (HN : 0 < N).
    { unfold verify in Hv. destruct ts; [discriminate|]. simpl in Hlen. lia. }
    step_done.
  - assert (HN : 0 < N).
    { unfold verify in Hv. destruct ts; [discriminate|]. simpl in Hlen. lia. }
    unfold reconstruct, bindM, lift, modify, ret. fold N.
    destruct (get_entity_categories s) as [cats|e] eqn:Hcats; [|step_done].
    destruct (get_entities s) as [origs|e] eqn:Horigs; [|step_done].
    destruct (mapM get_bracketed_entity ts) as [trans|e] eqn:Htrans;
      [|step_done].
    destruct ((length cats =? length origs) && (length origs =? length trans))
      eqn:Hlens; cbn [assert]; [|step_done].
    destruct (build_template main trans) as [template|e] eqn:Htpl;
      [|step_done].
    destruct (count_tokens (split template) TEMPLATE_TOKEN =? N) eqn:Hcount;
      cbn [negb]; [|step_done].
    apply andb_true_iff in Hlens. destruct Hlens as [H1 H2].
    apply Nat.eqb_eq in H1, H2, Hcount.
    assert (Hc : length cats = N).
    { unfold get_entity_categories in Hcats.
      rewrite (mapM_length _ _ _ Hcats). apply length_range. }
    rewrite emit_spec by lia.
    eexists _, _. split; [reflexivity|].
    cbn [translations_index db_amt advance].
    split; [right; right; split; reflexivity|].
    split; [right; split; [assumption | reflexivity] | intros; assumption].
  - step_done.
Qed.

Lemma slice_full {A} (i n : nat) (l : list A) :
  length (slice i (i + n) l) = n -> 0 < n -> i + n <= length l.
Proof.
  unfold slice. rewrite length_firstn, length_skipn. lia.
Qed.

(** X13.  When the loop ends without an exception and below the cap, it
    has taken from the translations exactly one per entity of every
    sentence, the skipped sentences included, every sentence had an
    entity, and the translations were enough. *)
Theorem run_cursor (results : list str) (sentences : list Sentence)
    (st st' : state) :
  run results sentences st = (Ok tt, st') ->
  db_amt st' < max_amt ->
  translations_index st' =
  translations_index st
  + list_sum (map (fun s => length (entity_indexes s)) sentences)
  /\ (sentences <> [] -> translations_index st' <= length results)
  /\ Forall (fun s => 0 < length (entity_indexes s)) sentences.
Proof.
  revert st. induction sentences as [|s rest IH]; intros st Hrun Hcap.
  - injection Hrun as <-. simpl. split; [lia|]. split; [congruence|constructor].
  - cbn [run] in Hrun. unfold bindM in Hrun.
    destruct (process_sentence_step results s st)
      as (r & st1 & Hp & Hdb & Hcur & Hpos).
    cbv zeta in Hcur. rewrite Hp in Hrun.
    destruct r as [[|]|e]; [| |discriminate].
    + specialize (Hpos _ eq_refl).
      destruct Hcur as [(_ & Hr & _) | [Hlen Hidx]]; [discriminate|].
      destruct (IH st1 Hrun Hcap) as (Hsum & Hle & Hall).
      cbn [map list_sum fold_right]. unfold list_sum in Hsum.
      split; [lia|]. split; [|now constructor].
      intros _. destruct rest as [|s' rest'].
      * injection Hrun as <-. rewrite Hidx. now apply slice_full.
      * apply Hle. discriminate.
    + unfold ret in Hrun. injection Hrun as <-.
      destruct Hdb as [[[e He] _] | [[He _] | [He Hd]]]; try discriminate.
      destruct (max_amt <=? db_amt st + 1) eqn:Hm; [|discriminate].
      apply Nat.leb_le in Hm. lia.
Qed.

Lemma run_app_cap (results : list str) (a b : list Sentence) :
  forall st,
    db_amt st < max_amt ->
    run results (a ++ b) st =
    (let (r, st1) := run results a st in
     match r with
     | Ok _ => if max_amt <=? db_amt st1 then (Ok tt, st1)
               else run results b st1
     | Raise e => (Raise e, st1)
     end)
    /\ db_amt st <= db_amt (snd (run results a st)) <= max_amt.
Proof.
  induction a as [|s a IH]; intros st Hst.
  - cbn [app run ret snd].
    replace (max_amt <=? db_amt st) with false
      by (symmetry; apply Nat.leb_gt; exact Hst).
    split; [reflexivity | lia].
  - cbn [app run]. unfold bindM.
    destruct (process_sentence_step results s st)
      as (r & st1 & Hp & Hdb & _ & _).
    rewrite Hp.
    destruct Hdb as [[[e ->] Hd] | [[-> Hd] | [-> Hd]]].
    + cbn [snd]. split; [reflexivity | lia].
    + destruct (IH st1 ltac:(lia)) as [Heq Hcap]. split; [exact Heq | lia].
    + destruct (max_amt <=? db_amt st + 1) eqn:Hm.
      * apply Nat.leb_le in Hm. unfold ret. cbn [snd].
        replace (max_amt <=? db_amt st1) with true
          by (symmetry; apply Nat.leb_le; lia).
        split; [reflexivity | lia].
      * apply Nat.leb_gt in Hm.
        destruct (IH st1 ltac:(lia)) as [Heq Hcap]. split; [exact Heq | lia].
Qed.

(** X14.  From a state below the cap, the loop over [a ++ b] is the loop
    over [a] followed, unless [a] raised or reached the cap, by the loop
    over [b] from the state [a] left; the count of written sentences never
    decreases and never passes the cap. *)
Theorem run_app (results : list str) (a b : list Sentence) (st : state) :
  db_amt st < max_amt ->
  run results (a ++ b) st =
  (let (r, st1) := run results a st in
   match r with
   | Ok _ => if max_amt <=? db_amt st1 then (Ok tt, st1)
             else run results b st1
   | Raise e => (Raise e, st1)
   end)
  /\ db_amt st <= db_amt (snd (run results a st)) <= max_amt.
Proof. apply run_app_cap. Qed.

(** ** The script as a whole *)

Lemma bracket_all (sentences : list Sentence) :
  Forall built sentences ->
  mapM get_bracketed_sentences sentences =
  if existsb (fun s => nonempty (entity_indexes s)
                       && existsb (fun w => has_marker (token w)) (words s))
       sentences
  then Raise ValueError
  else Ok (map (fun s => map (fun e => strip (closed_text e 0 false (words s)))
                           (entity_indexes s)) sentences).
Proof.
  induction 1 as [|s rest Hs _ IH]; [reflexivity|].
  cbn [mapM existsb map]. pose proof (get_bracketed_sentences_built s Hs) as H.
  destruct (nonempty (entity_indexes s)
            && existsb (fun w => has_marker (token w)) (words s)).
  - now rewrite H.
  - rewrite H, IH. cbn [bind orb]. now destruct (existsb _ rest).
Qed.

(** X15.  Once the input file is parsed, the script raises [ValueError]
    before the loop starts, with nothing written and no translation read,
    exactly when some sentence with an entity has the marker character in
    one of its tokens; otherwise it is the loop over the parsed
    sentences. *)
Theorem main_marker_aborts (lines results : list str)
    (sentences : list Sentence) (st : state) :
  parse_lines lines = Ok sentences ->
  main lines results st =
  if existsb (fun s => nonempty (entity_indexes s)
                       && existsb (fun w => has_marker (token w)) (words s))
       sentences
  then (Raise ValueError, st)
  else run results sentences st.
Proof.
  intros Hp. unfold main, bindM, lift. rewrite Hp.
  assert (Hb : Forall built sentences).
  { eapply Forall_impl; [|exact (parse_lines_well_read _ _ Hp)].
    now intros s [Hs _]. }
  rewrite (bracket_all sentences Hb).
  now destruct (existsb _ sentences).
Qed.

(** ** Bracketing an entity by hand *)








(** ** Instances of the further properties *)

Lemma built_quoted_sentence : built quoted_sentence.
Proof. unfold quoted_sentence. do 2 apply built_add. exact built_empty. Qed.

Lemma well_read_example_sentence : well_read example_sentence.
Proof. split; [exact built_example_sentence | repeat constructor]. Qed.

Lemma read_ok_example_sentence : read_ok example_sentence.
Proof.
  split; [exact well_read_example_sentence|].
  split; [repeat constructor|].
  split; [reflexivity | discriminate].
Qed.

Lemma remove_brackets_once_example :
  remove_brackets (lit "Tongzhi founded IBM") = Raise AssertionError.
Proof.
  exact (proj2 (proj2 (proj2
           (remove_brackets_once (bracketed "Tongzhi" ++ lit " founded IBM")
              (lit "Tongzhi founded IBM") eq_refl)))).
Defined.

Lemma get_entity_span_example :
  get_entity example_sentence (-1) = Ok (lit "IBM")
  /\ get_entity example_sentence (-3) = Raise IndexError.
Proof.
  split.
  - exact (get_entity_span example_sentence (-1)).
  - exact (get_entity_span example_sentence (-3)).
Defined.

Lemma entity_data_of_built_example :
  get_entities example_sentence = Ok [lit "Tongzhi"; lit "IBM"].
Proof.
  exact (proj1 (entity_data_of_built example_sentence built_example_sentence)).
Defined.

Lemma get_bracketed_sentences_marker_example :
  get_bracketed_sentences quoted_sentence = Raise ValueError.
Proof.
  exact (get_bracketed_sentences_marker quoted_sentence built_quoted_sentence).
Defined.

Lemma bracketed_entity_is_entity_example :
  get_bracketed_entity (bracketed "Tongzhi" ++ lit " founded IBM") =
  get_entity example_sentence 0.
Proof.
  exact (proj1 (bracketed_entity_is_entity example_sentence
                  example_translations 0
                  (bracketed "Tongzhi" ++ lit " founded IBM")
                  well_read_example_sentence eq_refl eq_refl)).
Defined.

Lemma original_entity_words_example :
  exists origs cats,
    get_entities example_sentence = Ok origs
    /\ get_entity_categories example_sentence = Ok cats
    /\ length origs = 2 /\ length cats = 2.
Proof.
  destruct (original_entity_words example_sentence well_read_example_sentence)
    as (origs & cats & Ho & Hc & Hlo & Hlc & _).
  exists origs, cats. repeat split; assumption.
Defined.

Lemma parse_written_blocks_example :
  parse_lines (flat_map block_lines [example_written]) =
  Ok (map block_sentence [example_written]).
Proof.
  apply (parse_written_blocks [example_written]).
  constructor; [|constructor].
  split; [reflexivity|]. split; [discriminate | repeat constructor].
Defined.

Lemma parse_lines_read_ok_example :
  Forall (fun s => read_ok s /\ words s <> []) [example_sentence].
Proof.
  exact (parse_lines_read_ok example_lines [example_sentence] eq_refl).
Defined.

Lemma parse_lines_blank_twice_example :
  parse_lines (firstn 4 example_lines ++ [[NL]; [NL]] ++ []) =
  parse_lines (firstn 4 example_lines ++ [[NL]] ++ []).
Proof.
  exact (parse_lines_blank_twice (firstn 4 example_lines) [] [NL] [NL]
           eq_refl eq_refl).
Defined.

Lemma written_blocks_readable_example :
  exists wo wt,
    orig_file (snd (process_sentence example_translations example_sentence
                      initial_state)) =
    orig_file initial_state ++ orig_block (example_sentence, wo, wt)
    ++ separator (db_amt initial_state)
    /\ parse_lines (block_lines (example_id_of example_sentence (-1),
                                 Domain.FR, wo))
       = Ok [block_sentence (example_id_of example_sentence (-1),
                             Domain.FR, wo)].
Proof.
  destruct (written_blocks_readable example_translations example_sentence
              initial_state read_ok_example_sentence)
    as (wo & wt & Ho & _ & _ & Hp & _).
  - vm_compute. discriminate.
  - exists wo, wt. split; assumption.
Defined.

Lemma process_sentence_table_example :
  process_sentence later_unbracketed_translations example_sentence
    initial_state =
  (Ok Continue, warn BracketsNotFoundWarning (advance 2 initial_state)).
Proof.
  exact (process_sentence_table later_unbracketed_translations
           example_sentence initial_state built_example_sentence).
Defined.

Lemma run_cursor_example :
  translations_index
    (snd (run example_translations [example_sentence] initial_state)) = 2.
Proof.
  refine (proj1 (run_cursor example_translations [example_sentence]
                   initial_state
                   (snd (run example_translations [example_sentence]
                           initial_state)) _ _)).
  - reflexivity.
  - vm_compute. lia.
Defined.

Lemma run_app_example :
  db_amt (snd (run example_translations [example_sentence] initial_state))
  <= max_amt.
Proof.
  refine (proj2 (proj2 (run_app example_translations [example_sentence]
                          [plain_sentence] initial_state _))).
  vm_compute. lia.
Defined.

Lemma main_marker_aborts_example :
  main example_lines example_translations initial_state =
  run example_translations [example_sentence] initial_state.
Proof.
  exact (main_marker_aborts example_lines example_translations
           [example_sentence] initial_state eq_refl).
Defined.

